(** * maybe-zod: the validate-then-transform wrappers [Maybe] and [AsyncMaybe]

    A shallow embedding of [src/index.ts].  The two wrappers are written
    against the capability contract of the validation engine
    ([safeParse] / [safeParseAsync] of a [z.ZodSchema]); the engine itself
    is a collaborator and enters as a record of functions. *)

From Stdlib Require Import ZArith List String Ascii Bool Lia.
From Stdlib Require Import Decimal DecimalString DecimalFacts DecimalPos DecimalZ.
Import ListNotations.
Local Open Scope string_scope.
Local Open Scope Z_scope.

(** ** JavaScript values and control flow *)

(** How a promise settles: [await] continues with the value of a fulfilled
    promise and raises the reason of a rejected one.  A promise stands for
    its settlement; one that stays pending for ever has no counterpart. *)
Inductive Settled (E A : Type) : Type :=
| Fulfilled (value : A)
| Rejected (reason : E).
Arguments Fulfilled {E A} value.
Arguments Rejected {E A} reason.

(** The run-time values the wrappers handle.  TypeScript's [T], [U] and
    [U | null] are erased at run time, so both slots of a result pair range
    over all of these.  Numbers are the integer-valued ones; an object is
    its list of own properties in insertion order. *)
#[warnings="-register-all"]
Inductive JsValue : Type :=
| JsUndefined
| JsNull
| JsBool (b : bool)
| JsNumber (n : Z)
| JsString (s : string)
| JsArray (items : list JsValue)
| JsObject (fields : list (string * JsValue))
| JsPromise (p : Settled JsValue JsValue).

Definition Promise (A : Type) : Type := Settled JsValue A.

(** Completion of a call: it returns normally or throws. *)
Inductive Completion (A : Type) : Type :=
| Normal (a : A)
| Throw (exn : JsValue).
Arguments Normal {A} a.
Arguments Throw {A} exn.

Definition bind {A B : Type} (c : Completion A) (k : A -> Completion B)
  : Completion B :=
  match c with
  | Normal a => k a
  | Throw exn => Throw exn
  end.

Notation "x <- c ;; k" := (bind c (fun x => k))
  (at level 61, c at next level, right associativity).

(** [try { body } catch (error) { handler }] *)
Definition try_catch {A : Type} (body : Completion A)
    (handler : JsValue -> Completion A) : Completion A :=
  match body with
  | Normal a => Normal a
  | Throw exn => handler exn
  end.

(** [await p] inside an [async] function. *)
Definition await {A : Type} (p : Promise A) : Completion A :=
  match p with
  | Fulfilled v => Normal v
  | Rejected reason => Throw reason
  end.

(** The promise an [async] function returns for its body. *)
Definition async {A : Type} (body : Completion A) : Promise A :=
  match body with
  | Normal a => Fulfilled a
  | Throw exn => Rejected exn
  end.

(** [null] and [undefined] are the two empty values. *)
Definition absent (v : JsValue) : bool :=
  match v with
  | JsUndefined | JsNull => true
  | _ => false
  end.

Definition present (v : JsValue) : bool := negb (absent v).

(** ** The validation engine's interface (package [zod], version 3)

    [ZodIssue] is the engine's tagged union of violations, one constructor
    per issue code; the arguments are in the order in which the engine
    stores the properties. *)

Inductive PathItem : Type :=
| PathKey (key : string)
| PathIndex (index : nat).

Inductive ZodIssue : Type :=
| invalid_type (expected received : string) (path : list PathItem)
    (message : string)
| too_small (minimum : Z) (type : string) (inclusive exact : bool)
    (message : string) (path : list PathItem)
| too_big (maximum : Z) (type : string) (inclusive exact : bool)
    (message : string) (path : list PathItem)
| invalid_string (validation : string) (message : string)
    (path : list PathItem)
| custom (message : string) (path : list PathItem).

Record ZodError : Type := mkZodError { issues : list ZodIssue }.

(** [SafeParseReturnType]: [{ success: true, data }] or
    [{ success: false, error }].  The wrappers read the error through
    [result.error?.message], so the model keeps the case of a failure
    outcome without an error object ([error = None]). *)
Inductive SafeParseReturnType : Type :=
| SafeParseSuccess (data : JsValue)
| SafeParseError (error : option ZodError).

(** The two capabilities of a [z.ZodSchema] the wrappers call. *)
Record ZodSchema : Type := mkZodSchema {
  safeParse : JsValue -> Completion SafeParseReturnType;
  safeParseAsync : JsValue -> Completion (Promise SafeParseReturnType)
}.

(** ** [JSON.stringify]

    [ZodError.message] is a getter: it renders the issue list with
    [JSON.stringify(this.issues, util.jsonStringifyReplacer, 2)].  The
    replacer only rewrites bigints, which the value model does not have.
    Strings are sequences of 8-bit code units. *)

Definition dquote : ascii := "034"%char.
Definition backslash : ascii := "092"%char.
Definition newline : ascii := "010"%char.

Definition hex_digit (n : nat) : ascii :=
  match n with
  | 0%nat => "0" | 1%nat => "1" | 2%nat => "2" | 3%nat => "3"
  | 4%nat => "4" | 5%nat => "5" | 6%nat => "6" | 7%nat => "7"
  | 8%nat => "8" | 9%nat => "9" | 10%nat => "a" | 11%nat => "b"
  | 12%nat => "c" | 13%nat => "d" | 14%nat => "e" | _ => "f"
  end%char.

(** One code unit of [QuoteJSONString]. *)
Definition quote_char (c : ascii) : string :=
  let n := nat_of_ascii c in
  if Ascii.eqb c dquote then String backslash (String dquote "")
  else if Ascii.eqb c backslash then String backslash (String backslash "")
  else if Nat.eqb n 8 then String backslash "b"
  else if Nat.eqb n 9 then String backslash "t"
  else if Nat.eqb n 10 then String backslash "n"
  else if Nat.eqb n 12 then String backslash "f"
  else if Nat.eqb n 13 then String backslash "r"
  else if Nat.ltb n 32 then
    String backslash
      (String "u" (String "0" (String "0"
        (String (hex_digit (n / 16)) (String (hex_digit (n mod 16)) "")))))
  else String c "".

Fixpoint quote_chars (s : string) : string :=
  match s with
  | EmptyString => EmptyString
  | String c s' => quote_char c ++ quote_chars s'
  end.

Definition QuoteJSONString (s : string) : string :=
  String dquote (quote_chars s ++ String dquote "").

(** [Number::toString] on an integer-valued number. *)
Definition NumberToString (n : Z) : string :=
  DecimalString.NilEmpty.string_of_int (Z.to_int n).

(** [SerializeJSONProperty] of [JSON.stringify] with a non-empty [gap].  An
    [undefined] array element is rendered [null]; an [undefined] member of
    an object is left out; a promise has no own enumerable property. *)
Fixpoint SerializeJSONProperty (gap indent : string) (v : JsValue) : string :=
  match v with
  | JsUndefined => "null"
  | JsNull => "null"
  | JsBool b => if b then "true" else "false"
  | JsNumber n => NumberToString n
  | JsString s => QuoteJSONString s
  | JsArray items =>
      let stepback := indent in
      let indent := indent ++ gap in
      let partial := map (SerializeJSONProperty gap indent) items in
      match partial with
      | [] => "[]"
      | _ =>
          let separator := String "," (String newline indent) in
          String "[" (String newline indent) ++ String.concat separator partial
            ++ String newline stepback ++ "]"
      end
  | JsObject fields =>
      let stepback := indent in
      let indent := indent ++ gap in
      let partial :=
        flat_map (fun member =>
          match member with
          | (_, JsUndefined) => []
          | (key, value) =>
              [QuoteJSONString key ++ ": "
                 ++ SerializeJSONProperty gap indent value]
          end) fields in
      match partial with
      | [] => "{}"
      | _ =>
          let separator := String "," (String newline indent) in
          String "{" (String newline indent) ++ String.concat separator partial
            ++ String newline stepback ++ "}"
      end
  | JsPromise _ => "{}"
  end.

Definition path_json (path : list PathItem) : JsValue :=
  JsArray (map (fun item =>
    match item with
    | PathKey key => JsString key
    | PathIndex index => JsNumber (Z.of_nat index)
    end) path).

(** The issue as the object the engine builds, properties in insertion
    order. *)
Definition issue_json (issue : ZodIssue) : JsValue :=
  match issue with
  | invalid_type expected received path message =>
      JsObject [("code", JsString "invalid_type");
                ("expected", JsString expected);
                ("received", JsString received);
                ("path", path_json path);
                ("message", JsString message)]
  | too_small minimum type inclusive exact message path =>
      JsObject [("code", JsString "too_small");
                ("minimum", JsNumber minimum);
                ("type", JsString type);
                ("inclusive", JsBool inclusive);
                ("exact", JsBool exact);
                ("message", JsString message);
                ("path", path_json path)]
  | too_big maximum type inclusive exact message path =>
      JsObject [("code", JsString "too_big");
                ("maximum", JsNumber maximum);
                ("type", JsString type);
                ("inclusive", JsBool inclusive);
                ("exact", JsBool exact);
                ("message", JsString message);
                ("path", path_json path)]
  | invalid_string validation message path =>
      JsObject [("validation", JsString validation);
                ("code", JsString "invalid_string");
                ("message", JsString message);
                ("path", path_json path)]
  | custom message path =>
      JsObject [("code", JsString "custom");
                ("message", JsString message);
                ("path", path_json path)]
  end.

(** Modelled from the spec: the engine's getter
    [get message() { return JSON.stringify(this.issues, ..., 2); }]. *)
Definition ZodError_message (error : ZodError) : string :=
  SerializeJSONProperty "  " "" (JsArray (map issue_json (issues error))).

(** ** [src/index.ts] *)

Definition ResultPair : Type := (JsValue * JsValue)%type.

(** [result.error?.message]: [undefined] when there is no error object. *)
Definition optional_message (error : option ZodError) : JsValue :=
  match error with
  | Some e => JsString (ZodError_message e)
  | None => JsUndefined
  end.

(** [[
export const Maybe = (fn, schema) => (data) => {
  const result = schema.safeParse(data);
  return result.success
      ? [null, fn(result.data)]
      : [result.error?.message , null];
};
]] *)
Definition Maybe (fn : JsValue -> Completion JsValue) (schema : ZodSchema)
    (data : JsValue) : Completion ResultPair :=
  result <- safeParse schema data ;;
  match result with
  | SafeParseSuccess validated =>
      value <- fn validated ;;
      Normal (JsNull, value)
  | SafeParseError error => Normal (optional_message error, JsNull)
  end.

(** [[
export const AsyncMaybe = (fn, schema) => async (data) => {
  try {
    const result = await schema.safeParseAsync(await data);
    return result.success ? [null, fn(result.data)] : [result.error?.message , null];
  } catch (error) {
    return ['Unknown error', null];
  }
};
]] *)
Definition AsyncMaybe (fn : JsValue -> Completion JsValue) (schema : ZodSchema)
    (data : Promise JsValue) : Promise ResultPair :=
  async
    (try_catch
       (input <- await data ;;
        pending <- safeParseAsync schema input ;;
        result <- await pending ;;
        match result with
        | SafeParseSuccess validated =>
            value <- fn validated ;;
            Normal (JsNull, value)
        | SafeParseError error => Normal (optional_message error, JsNull)
        end)
       (fun _error => Normal (JsString "Unknown error", JsNull))).

(** ** [JSON.parse]

    A recursive-descent reader of JSON text.  Numbers are read in the
    integer syntax of the value model (a fraction or exponent is refused);
    a [\u] escape is read when it denotes an 8-bit code unit.  [fuel]
    bounds the nesting of calls; [JSON_parse] gives one unit per character. *)

Definition is_ws (c : ascii) : bool :=
  let n := nat_of_ascii c in
  Nat.eqb n 32 || Nat.eqb n 10 || Nat.eqb n 13 || Nat.eqb n 9.

Definition is_digit (c : ascii) : bool :=
  let n := nat_of_ascii c in
  Nat.leb 48 n && Nat.leb n 57.

Fixpoint skip_ws (s : string) : string :=
  match s with
  | EmptyString => EmptyString
  | String c s' => if is_ws c then skip_ws s' else s
  end.

Fixpoint strip_prefix (literal s : string) : option string :=
  match literal, s with
  | EmptyString, _ => Some s
  | String a literal', String b s' =>
      if Ascii.eqb a b then strip_prefix literal' s' else None
  | String _ _, EmptyString => None
  end.

Definition hex_value (c : ascii) : option nat :=
  let n := nat_of_ascii c in
  if Nat.leb 48 n && Nat.leb n 57 then Some (n - 48)%nat
  else if Nat.leb 97 n && Nat.leb n 102 then Some (n - 87)%nat
  else if Nat.leb 65 n && Nat.leb n 70 then Some (n - 55)%nat
  else None.

(** The code unit of [\uXXXX], for the units of the string model. *)
Definition unicode_escape (h1 h2 h3 h4 : ascii) : option ascii :=
  match hex_value h1, hex_value h2, hex_value h3, hex_value h4 with
  | Some 0%nat, Some 0%nat, Some a, Some b => Some (ascii_of_nat (16 * a + b))
  | _, _, _, _ => None
  end.

Definition simple_escape (c : ascii) : option ascii :=
  if Ascii.eqb c dquote then Some dquote
  else if Ascii.eqb c backslash then Some backslash
  else if Ascii.eqb c "/" then Some "/"%char
  else if Ascii.eqb c "b" then Some "008"%char
  else if Ascii.eqb c "f" then Some "012"%char
  else if Ascii.eqb c "n" then Some "010"%char
  else if Ascii.eqb c "r" then Some "013"%char
  else if Ascii.eqb c "t" then Some "009"%char
  else None.

Definition prepend (c : ascii) (r : option (string * string))
  : option (string * string) :=
  match r with
  | Some (str, rest) => Some (String c str, rest)
  | None => None
  end.

(** The characters of a string literal after its opening quote. *)
Fixpoint parse_string_body (s : string) : option (string * string) :=
  match s with
  | EmptyString => None
  | String c s' =>
      if Ascii.eqb c dquote then Some (EmptyString, s')
      else if Ascii.eqb c backslash then
        match s' with
        | EmptyString => None
        | String e s'' =>
            match simple_escape e with
            | Some c' => prepend c' (parse_string_body s'')
            | None =>
                if Ascii.eqb e "u" then
                  match s'' with
                  | String h1 (String h2 (String h3 (String h4 s3))) =>
                      match unicode_escape h1 h2 h3 h4 with
                      | Some c' => prepend c' (parse_string_body s3)
                      | None => None
                      end
                  | _ => None
                  end
                else None
            end
        end
      else if Nat.ltb (nat_of_ascii c) 32 then None
      else prepend c (parse_string_body s')
  end.

Fixpoint span_digits (s : string) : string * string :=
  match s with
  | EmptyString => (EmptyString, EmptyString)
  | String c s' =>
      if is_digit c then
        let (digits, rest) := span_digits s' in (String c digits, rest)
      else (EmptyString, s)
  end.

Definition starts_fraction (s : string) : bool :=
  match s with
  | String c _ => Ascii.eqb c "." || Ascii.eqb c "e" || Ascii.eqb c "E"
  | EmptyString => false
  end.

Definition leading_zero (digits : string) : bool :=
  match digits with
  | String c (String _ _) => Ascii.eqb c "0"
  | _ => false
  end.

Definition parse_unsigned (s : string) : option (Z * string) :=
  let (digits, rest) := span_digits s in
  match digits with
  | EmptyString => None
  | _ =>
      if leading_zero digits || starts_fraction rest then None
      else
        match DecimalString.NilEmpty.uint_of_string digits with
        | Some d => Some (Z.of_uint d, rest)
        | None => None
        end
  end.

Definition parse_number (s : string) : option (Z * string) :=
  match s with
  | String c s' =>
      if Ascii.eqb c "-" then
        match parse_unsigned s' with
        | Some (n, rest) => Some (- n, rest)
        | None => None
        end
      else parse_unsigned s
  | EmptyString => None
  end.

Definition is_number_start (c : ascii) : bool :=
  Ascii.eqb c "-" || is_digit c.

(** Whether [s] begins with the character [c]. *)
Definition next_is (c : ascii) (s : string) : bool :=
  match s with
  | String c' _ => Ascii.eqb c' c
  | EmptyString => false
  end.

Definition tail (s : string) : string :=
  match s with
  | String _ s' => s'
  | EmptyString => EmptyString
  end.

Fixpoint parse_value (fuel : nat) (s : string) : option (JsValue * string) :=
  match fuel with
  | O => None
  | S fuel' =>
      match skip_ws s with
      | EmptyString => None
      | String c rest =>
          if is_number_start c then
            match parse_number (String c rest) with
            | Some (n, rest') => Some (JsNumber n, rest')
            | None => None
            end
          else if Ascii.eqb c dquote then
            match parse_string_body rest with
            | Some (str, rest') => Some (JsString str, rest')
            | None => None
            end
          else if Ascii.eqb c "[" then
            if next_is "]" (skip_ws rest) then
              Some (JsArray [], tail (skip_ws rest))
            else
              match parse_elements fuel' rest with
              | Some (items, rest') => Some (JsArray items, rest')
              | None => None
              end
          else if Ascii.eqb c "{" then
            if next_is "}" (skip_ws rest) then
              Some (JsObject [], tail (skip_ws rest))
            else
              match parse_members fuel' rest with
              | Some (fields, rest') => Some (JsObject fields, rest')
              | None => None
              end
          else if Ascii.eqb c "n" then
            option_map (pair JsNull) (strip_prefix "ull" rest)
          else if Ascii.eqb c "t" then
            option_map (pair (JsBool true)) (strip_prefix "rue" rest)
          else if Ascii.eqb c "f" then
            option_map (pair (JsBool false)) (strip_prefix "alse" rest)
          else None
      end
  end

with parse_elements (fuel : nat) (s : string)
  : option (list JsValue * string) :=
  match fuel with
  | O => None
  | S fuel' =>
      match parse_value fuel' s with
      | None => None
      | Some (item, rest) =>
          if next_is "]" (skip_ws rest) then
            Some ([item], tail (skip_ws rest))
          else if next_is "," (skip_ws rest) then
            match parse_elements fuel' (tail (skip_ws rest)) with
            | Some (items, rest') => Some (item :: items, rest')
            | None => None
            end
          else None
      end
  end

with parse_members (fuel : nat) (s : string)
  : option (list (string * JsValue) * string) :=
  match fuel with
  | O => None
  | S fuel' =>
      if next_is dquote (skip_ws s) then
        match parse_string_body (tail (skip_ws s)) with
        | None => None
        | Some (key, s') =>
            if next_is ":" (skip_ws s') then
              match parse_value fuel' (tail (skip_ws s')) with
              | None => None
              | Some (value, rest) =>
                  if next_is "}" (skip_ws rest) then
                    Some ([(key, value)], tail (skip_ws rest))
                  else if next_is "," (skip_ws rest) then
                    match parse_members fuel' (tail (skip_ws rest)) with
                    | Some (fields, rest') =>
                        Some ((key, value) :: fields, rest')
                    | None => None
                    end
                  else None
              end
            else None
        end
      else None
  end.

Definition SyntaxError : JsValue := JsString "SyntaxError".

(** [JSON.parse(text)]: the whole text is one value, or [SyntaxError]. *)
Definition JSON_parse (text : string) : Completion JsValue :=
  match parse_value (S (String.length text)) text with
  | Some (value, rest) =>
      match skip_ws rest with
      | EmptyString => Normal value
      | String _ _ => Throw SyntaxError
      end
  | None => Throw SyntaxError
  end.

(** ** The validation engine on the schemas of the test suite

    The engine (package [zod], a dependency) is not part of the
    repository's sources.  Section 6 of the specification gives its
    contract, and the test suite gives the schemas and the messages.  The
    model covers [z.string()] with [min], [max] and [email], [z.number()]
    with [int], [min]/[positive] and [max], [z.boolean()], [z.array()] and
    [z.object()]. *)

Inductive ZodStringCheck : Type :=
| StringMin (value : Z)
| StringMax (value : Z)
| StringEmail.

Inductive ZodNumberCheck : Type :=
| NumberInt
| NumberMin (value : Z) (inclusive : bool)
| NumberMax (value : Z) (inclusive : bool).

#[warnings="-register-all"]
Inductive ZodType : Type :=
| ZodString (checks : list ZodStringCheck)
| ZodNumber (checks : list ZodNumberCheck)
| ZodBoolean
| ZodArray (element : ZodType)
| ZodObject (shape : list (string * ZodType)).

Definition getParsedType (data : JsValue) : string :=
  match data with
  | JsUndefined => "undefined"
  | JsNull => "null"
  | JsBool _ => "boolean"
  | JsNumber _ => "number"
  | JsString _ => "string"
  | JsArray _ => "array"
  | JsObject _ => "object"
  | JsPromise _ => "promise"
  end.

(** The default error map (locale [en]) for the issue codes of the model. *)
Definition invalid_type_message (expected received : string) : string :=
  if String.eqb received "undefined" then "Required"
  else "Expected " ++ expected ++ ", received " ++ received.

Definition too_small_message (type : string) (minimum : Z)
    (inclusive : bool) : string :=
  if String.eqb type "string" then
    "String must contain " ++ (if inclusive then "at least" else "over")
      ++ " " ++ NumberToString minimum ++ " character(s)"
  else
    "Number must be "
      ++ (if inclusive then "greater than or equal to " else "greater than ")
      ++ NumberToString minimum.

Definition too_big_message (type : string) (maximum : Z)
    (inclusive : bool) : string :=
  if String.eqb type "string" then
    "String must contain " ++ (if inclusive then "at most" else "under")
      ++ " " ++ NumberToString maximum ++ " character(s)"
  else
    "Number must be "
      ++ (if inclusive then "less than or equal to" else "less than")
      ++ " " ++ NumberToString maximum.

Definition type_issue (expected : string) (path : list PathItem)
    (input : JsValue) : ZodIssue :=
  invalid_type expected (getParsedType input) path
    (invalid_type_message expected (getParsedType input)).

Definition is_letter (c : ascii) : bool :=
  let n := nat_of_ascii c in
  (Nat.leb 65 n && Nat.leb n 90) || (Nat.leb 97 n && Nat.leb n 122).

Definition is_alnum (c : ascii) : bool := is_letter c || is_digit c.

Definition local_last (c : ascii) : bool :=
  is_alnum c || Ascii.eqb c "_" || Ascii.eqb c "+" || Ascii.eqb c "-".

Definition local_char (c : ascii) : bool :=
  local_last c || Ascii.eqb c "'" || Ascii.eqb c ".".

Fixpoint forall_chars (p : ascii -> bool) (s : string) : bool :=
  match s with
  | EmptyString => true
  | String c s' => p c && forall_chars p s'
  end.

(** The text before the first [sep] and the text after it. *)
Fixpoint split_at (sep : ascii) (s : string) : option (string * string) :=
  match s with
  | EmptyString => None
  | String c s' =>
      if Ascii.eqb c sep then Some (EmptyString, s')
      else
        match split_at sep s' with
        | Some (before, after) => Some (String c before, after)
        | None => None
        end
  end.

Fixpoint last_char (s : string) : option ascii :=
  match s with
  | EmptyString => None
  | String c EmptyString => Some c
  | String _ s' => last_char s'
  end.

Fixpoint has_dot_dot (s : string) : bool :=
  match s with
  | String a ((String b _) as s') =>
      (Ascii.eqb a "." && Ascii.eqb b ".") || has_dot_dot s'
  | _ => false
  end.

Definition domain_label (label : string) : bool :=
  match label with
  | String c label' =>
      is_alnum c && forall_chars (fun d => is_alnum d || Ascii.eqb d "-") label'
  | EmptyString => false
  end.

(** [([A-Z0-9][A-Z0-9\-]*\.)+[A-Z]{2,}$]; [labels] counts the labels read. *)
Fixpoint domain_from (fuel : nat) (labels : nat) (s : string) : bool :=
  match split_at "." s with
  | Some (label, rest) =>
      match fuel with
      | O => false
      | S fuel' => domain_label label && domain_from fuel' (S labels) rest
      end
  | None =>
      Nat.leb 1 labels && Nat.leb 2 (String.length s) && forall_chars is_letter s
  end.

(** Modelled from the spec: the engine's [emailRegex], case-insensitive.
    The text does not start with a dot and has no two dots in a row;
    before the at-sign come letters, digits and
    the characters _ ' + - . with the last one not ' or . ; after it come
    one or more labels (a letter or digit, then letters, digits or -), each
    followed by a dot, and then two or more letters up to the end. *)
Definition emailRegex_test (s : string) : bool :=
  match s with
  | String "." _ => false
  | _ =>
      negb (has_dot_dot s) &&
      match split_at "@" s with
      | Some (local, domain) =>
          forall_chars local_char local &&
          match last_char local with
          | Some c => local_last c
          | None => false
          end &&
          domain_from (String.length domain) 0 domain
      | None => false
      end
  end.

Definition string_check (path : list PathItem) (data : string)
    (check : ZodStringCheck) : list ZodIssue :=
  match check with
  | StringMin value =>
      if Z.of_nat (String.length data) <? value then
        [too_small value "string" true false
           (too_small_message "string" value true) path]
      else []
  | StringMax value =>
      if Z.of_nat (String.length data) >? value then
        [too_big value "string" true false
           (too_big_message "string" value true) path]
      else []
  | StringEmail =>
      if emailRegex_test data then []
      else [invalid_string "email" "Invalid email" path]
  end.

Definition number_check (path : list PathItem) (data : Z)
    (check : ZodNumberCheck) : list ZodIssue :=
  match check with
  | NumberInt => []
  | NumberMin value inclusive =>
      if (if inclusive then data <? value else data <=? value) then
        [too_small value "number" inclusive false
           (too_small_message "number" value inclusive) path]
      else []
  | NumberMax value inclusive =>
      if (if inclusive then data >? value else data >=? value) then
        [too_big value "number" inclusive false
           (too_big_message "number" value inclusive) path]
      else []
  end.

(** [data[key]] *)
Fixpoint get_property (key : string) (fields : list (string * JsValue))
  : JsValue :=
  match fields with
  | [] => JsUndefined
  | (k, v) :: fields' => if String.eqb k key then v else get_property key fields'
  end.

Definition has_property (key : string) (fields : list (string * JsValue))
  : bool :=
  existsb (fun member => String.eqb (fst member) key) fields.

(** What [_parse] leaves behind: the issues added to the context, and the
    parsed value unless the status is [aborted]. *)
Definition ParseReturnType : Type := (list ZodIssue * option JsValue)%type.

Fixpoint parse_items (parse : list PathItem -> JsValue -> ParseReturnType)
    (path : list PathItem) (index : nat) (items : list JsValue)
  : list ZodIssue * option (list JsValue) :=
  match items with
  | [] => ([], Some [])
  | item :: items' =>
      let (found, value) := parse (path ++ [PathIndex index])%list item in
      let (found', values) := parse_items parse path (S index) items' in
      ((found ++ found')%list,
       match value, values with
       | Some v, Some vs => Some (v :: vs)
       | _, _ => None
       end)
  end.

(** Modelled from the spec: the engine's [_parse], whose code is not in the
    repository.  A value of the wrong type is one [invalid_type] issue and
    aborts; every failed check of a value of the right type is one issue;
    the issues of the members of an array or object are collected in
    order, and unknown keys of an object are stripped. *)
Fixpoint _parse (schema : ZodType) (path : list PathItem) (input : JsValue)
  : ParseReturnType :=
  match schema with
  | ZodString checks =>
      match input with
      | JsString data =>
          (flat_map (string_check path data) checks, Some input)
      | _ => ([type_issue "string" path input], None)
      end
  | ZodNumber checks =>
      match input with
      | JsNumber data =>
          (flat_map (number_check path data) checks, Some input)
      | _ => ([type_issue "number" path input], None)
      end
  | ZodBoolean =>
      match input with
      | JsBool _ => ([], Some input)
      | _ => ([type_issue "boolean" path input], None)
      end
  | ZodArray element =>
      match input with
      | JsArray items =>
          let (found, values) := parse_items (_parse element) path 0 items in
          (found, option_map JsArray values)
      | _ => ([type_issue "array" path input], None)
      end
  | ZodObject shape =>
      match input with
      | JsObject fields =>
          let members :=
            map (fun entry =>
              match entry with
              | (key, member) =>
                  (key, _parse member (path ++ [PathKey key])%list
                          (get_property key fields))
              end) shape in
          (flat_map (fun m => fst (snd m)) members,
           option_map JsObject
             (fold_right (fun m acc =>
                match snd (snd m), acc with
                | Some JsUndefined, Some fs =>
                    if has_property (fst m) fields
                    then Some ((fst m, JsUndefined) :: fs) else Some fs
                | Some v, Some fs => Some ((fst m, v) :: fs)
                | _, _ => None
                end) (Some []) members))
      | _ => ([type_issue "object" path input], None)
      end
  end.

(** Modelled from the spec: the engine's [handleResult], success when the
    parse added no issue. *)
Definition handleResult (result : ParseReturnType)
  : Completion SafeParseReturnType :=
  match result with
  | ([], Some value) => Normal (SafeParseSuccess value)
  | ([], None) =>
      Throw (JsString "Validation failed but no issues detected.")
  | (found, _) => Normal (SafeParseError (Some (mkZodError found)))
  end.

(** The schema object of the engine for [schema]: [safeParse] and
    [safeParseAsync] both parse and hand the outcome to [handleResult]. *)
Definition zod (schema : ZodType) : ZodSchema :=
  {| safeParse := fun data => handleResult (_parse schema [] data);
     safeParseAsync := fun data =>
       Normal (async (handleResult (_parse schema [] data))) |}.

(** ** Fixtures of the test suite and of the examples *)

(** [[
const userSchema = z.object({
  name: z.string().min(2).max(50),
  age: z.number().int().positive(),
  email: z.string().email(),
});
]] *)
Definition userSchema : ZodType :=
  ZodObject
    [("name", ZodString [StringMin 2; StringMax 50]);
     ("age", ZodNumber [NumberInt; NumberMin 0 false]);
     ("email", ZodString [StringEmail])].

(** [{ name: 'A', age: -5, email: 'invalid' }] *)
Definition invalidUser : JsValue :=
  JsObject [("name", JsString "A"); ("age", JsNumber (-5));
            ("email", JsString "invalid")].

(** [const sum = (numbers: number[]) => numbers.reduce((a, b) => a + b, 0);] *)
Definition sum (numbers : list Z) : Z :=
  fold_left (fun a b => a + b) numbers 0.

Fixpoint as_numbers (items : list JsValue) : option (list Z) :=
  match items with
  | [] => Some []
  | JsNumber n :: items' => option_map (cons n) (as_numbers items')
  | _ :: _ => None
  end.

Definition TypeError : JsValue := JsString "TypeError".

(** A transform annotated [(numbers: number[]) => number], seen from the
    untyped run time.  The annotation gives the body no meaning outside
    [number[]]; the model raises there. *)
Definition on_numbers (fn : list Z -> Z) (data : JsValue)
  : Completion JsValue :=
  match data with
  | JsArray items =>
      match as_numbers items with
      | Some numbers => Normal (JsNumber (fn numbers))
      | None => Throw TypeError
      end
  | _ => Throw TypeError
  end.

(** [() => {}], the transform of the product validation example. *)
Definition noop (_ : JsValue) : Completion JsValue := Normal JsUndefined.

(** A transform that raises: [() => { throw "boom" }]. *)
Definition raising (_ : JsValue) : Completion JsValue :=
  Throw (JsString "boom").

(** [async (str) => str], a transform whose result is a pending value. *)
Definition pending_identity (data : JsValue) : Completion JsValue :=
  Normal (JsPromise (Fulfilled data)).

(** A schema object whose failure outcome carries no error object: the
    defensive case [result.error?.message] is written for. *)
Definition bareFailure : ZodSchema :=
  {| safeParse := fun _ => Normal (SafeParseError None);
     safeParseAsync := fun _ => Normal (Fulfilled (SafeParseError None)) |}.

(** Exactly one slot of the pair holds something. *)
Definition exclusive (pair : ResultPair) : bool :=
  xorb (present (fst pair)) (present (snd pair)).

(** The pair of the blanket [catch]. *)
Definition unknown_error : ResultPair := (JsString "Unknown error", JsNull).

(** ** Values that JSON text carries *)

(** No [undefined] and no promise at any depth. *)
Fixpoint json_data (v : JsValue) : bool :=
  match v with
  | JsUndefined | JsPromise _ => false
  | JsArray items => forallb json_data items
  | JsObject fields =>
      forallb (fun member => match member with (_, value) => json_data value end)
        fields
  | _ => true
  end.

(** Calls of the reader that the text of [v] takes, one inside the other. *)
Fixpoint nesting (v : JsValue) : nat :=
  match v with
  | JsArray items => S (list_sum (map (fun item => S (nesting item)) items))
  | JsObject fields =>
      S (list_sum (map (fun member =>
           match member with (_, value) => S (nesting value) end) fields))
  | _ => 1%nat
  end.

(** The text after a number: not a digit, a fraction or an exponent. *)
Definition ends_number (rest : string) : bool :=
  match rest with
  | String c _ => negb (is_digit c) && negb (starts_fraction rest)
  | EmptyString => true
  end.

(** The text of one member of an object. *)
Definition member_text (gap indent : string) (member : string * JsValue)
  : string :=
  QuoteJSONString (fst member) ++ ": "
    ++ SerializeJSONProperty gap indent (snd member).

(** The text of a container with members [partial], as
    [SerializeJSONArray] and [SerializeJSONObject] lay it out. *)
Definition container_text (opening closing : string) (indent stepback : string)
    (partial : list string) : string :=
  match partial with
  | [] => opening ++ closing
  | _ =>
      opening ++ String newline indent
        ++ String.concat (String "," (String newline indent)) partial
        ++ String newline stepback ++ closing
  end.

(** The first character of the text of a value starts no white space and
    closes no container. *)
Definition opens_value (c : ascii) : bool :=
  negb (is_ws c) && negb (Ascii.eqb c "]") && negb (Ascii.eqb c "}")
    && negb (Ascii.eqb c ",").


(** The reader gives back [v] from the text of [v], whatever follows. *)
Definition reads_back (v : JsValue) : Prop :=
  forall indent rest fuel,
    forall_chars is_ws indent = true ->
    (nesting v <= fuel)%nat ->
    ends_number rest = true ->
    parse_value fuel (SerializeJSONProperty "  " indent v ++ rest) = Some (v, rest).

(** ** The rules of a schema, stated for themselves

    What the checks require, in the words of the schema: [min(n)] at least
    [n] characters, [max(n)] at most [n], [email()] an address;
    [positive()] more than zero.  [rule_violations] counts the rules the
    input breaks: one for a value of the wrong type, one for each broken
    check of a value of the right type, and those of the members of an
    array or object. *)

Definition string_rule (check : ZodStringCheck) (data : string) : bool :=
  match check with
  | StringMin value => value <=? Z.of_nat (String.length data)
  | StringMax value => Z.of_nat (String.length data) <=? value
  | StringEmail => emailRegex_test data
  end.

Definition number_rule (check : ZodNumberCheck) (data : Z) : bool :=
  match check with
  | NumberInt => true
  | NumberMin value inclusive =>
      if inclusive then value <=? data else value <? data
  | NumberMax value inclusive =>
      if inclusive then data <=? value else data <? value
  end.

Definition count_broken {A : Type} (holds : A -> bool) (rules : list A) : nat :=
  List.length (filter (fun rule => negb (holds rule)) rules).

Fixpoint rule_violations (schema : ZodType) (input : JsValue) : nat :=
  match schema, input with
  | ZodString checks, JsString data =>
      count_broken (fun check => string_rule check data) checks
  | ZodNumber checks, JsNumber data =>
      count_broken (fun check => number_rule check data) checks
  | ZodBoolean, JsBool _ => 0%nat
  | ZodArray element, JsArray items =>
      list_sum (map (rule_violations element) items)
  | ZodObject shape, JsObject fields =>
      list_sum (map (fun entry =>
        match entry with
        | (key, member) => rule_violations member (get_property key fields)
        end) shape)
  | _, _ => 1%nat
  end.

(** ** Callers of the wrappers: the demo of [src/index.ts] and the test suite *)

(** [ToBoolean], the test of [if (error)] and of [!val]. *)
Definition ToBoolean (v : JsValue) : bool :=
  match v with
  | JsUndefined | JsNull => false
  | JsBool b => b
  | JsNumber n => negb (n =? 0)
  | JsString s => negb (String.eqb s "")
  | JsArray _ | JsObject _ | JsPromise _ => true
  end.

(** [ToString], as a template literal applies it.  Objects are plain data:
    an array joins its elements, an object without a [toString] of its own
    prints its class. *)
Fixpoint ToString (v : JsValue) : string :=
  match v with
  | JsUndefined => "undefined"
  | JsNull => "null"
  | JsBool b => if b then "true" else "false"
  | JsNumber n => NumberToString n
  | JsString s => s
  | JsArray items =>
      String.concat ","
        (map (fun item =>
           match item with
           | JsUndefined | JsNull => EmptyString
           | _ => ToString item
           end) items)
  | JsObject _ => "[object Object]"
  | JsPromise _ => "[object Promise]"
  end.

(** [value.key] for a key that no built-in prototype defines ([name],
    [age]): a [TypeError] on [null] and [undefined], the own property of an
    object, [undefined] elsewhere. *)
Definition get_member (key : string) (value : JsValue) : Completion JsValue :=
  match value with
  | JsUndefined | JsNull => Throw TypeError
  | JsObject fields => Normal (get_property key fields)
  | _ => Normal JsUndefined
  end.

(** [value.length] *)
Definition get_length (value : JsValue) : Completion JsValue :=
  match value with
  | JsUndefined | JsNull => Throw TypeError
  | JsArray items => Normal (JsNumber (Z.of_nat (List.length items)))
  | JsString s => Normal (JsNumber (Z.of_nat (String.length s)))
  | JsObject fields => Normal (get_property "length" fields)
  | _ => Normal JsUndefined
  end.

(** The own enumerable properties [{...value}] copies. *)
Fixpoint indexed {A : Type} (index : nat) (items : list A) : list (string * A) :=
  match items with
  | [] => []
  | item :: items' =>
      (NumberToString (Z.of_nat index), item) :: indexed (S index) items'
  end.

Fixpoint code_units (s : string) : list JsValue :=
  match s with
  | EmptyString => []
  | String c s' => JsString (String c EmptyString) :: code_units s'
  end.

Definition spread (value : JsValue) : list (string * JsValue) :=
  match value with
  | JsObject fields => fields
  | JsArray items => indexed 0 items
  | JsString s => indexed 0 (code_units s)
  | _ => []
  end.

(** [object[key] = value] on the property list: an existing property keeps
    its place, a new one goes last. *)
Fixpoint set_property (key : string) (value : JsValue)
    (fields : list (string * JsValue)) : list (string * JsValue) :=
  match fields with
  | [] => [(key, value)]
  | (k, v) :: fields' =>
      if String.eqb k key then (k, value) :: fields'
      else (k, v) :: set_property key value fields'
  end.

(** [[
const processUser = (user: User) => ({
  ...user,
  displayName: `${user.name} (${user.age})`
});
]] *)
Definition processUser (user : JsValue) : Completion JsValue :=
  let copied := spread user in
  name <- get_member "name" user ;;
  age <- get_member "age" user ;;
  Normal (JsObject
            (set_property "displayName"
               (JsString (ToString name ++ " (" ++ ToString age ++ ")"))
               copied)).

(** [(arr: string[]) => arr.length] of the test of the empty array. *)
Definition array_length (arr : JsValue) : Completion JsValue := get_length arr.

(** [[
export const profileValidator = z.object({
  name: z.string().max(10),
  email: z.string().email(),
});
]] *)
Definition profileValidator : ZodType :=
  ZodObject [("name", ZodString [StringMax 10]);
             ("email", ZodString [StringEmail])].

(** [MaybeFunction] and [AsyncMaybeFunction], the copies of the wrappers
    that [src/index.ts] declares for its demo. *)
Definition MaybeFunction (fn : JsValue -> Completion JsValue)
    (schema : ZodSchema) (data : JsValue) : Completion ResultPair :=
  result <- safeParse schema data ;;
  match result with
  | SafeParseSuccess validated =>
      value <- fn validated ;;
      Normal (JsNull, value)
  | SafeParseError error => Normal (optional_message error, JsNull)
  end.


(** [[
const safeFunction = MaybeFunction<Profile>(data => {
 return  data.name
}, profileValidator)
]] *)
Definition safeFunction : JsValue -> Completion ResultPair :=
  MaybeFunction (fun data => get_member "name" data) (zod profileValidator).


(** The [data] of the demo. *)
Definition demo_data : JsValue :=
  JsObject [("name", JsString "John Doe 0000 0000 000");
            ("email", JsString "john.doe@example.com");
            ("below", JsNumber 100)].

(** * Properties of the wrappers *)

(** ** The synchronous wrapper *)

Lemma Maybe_on_success fn schema data validated :
  safeParse schema data = Normal (SafeParseSuccess validated) ->
  Maybe fn schema data =
    (value <- fn validated ;; Normal (JsNull, value)).
Proof. intros H. unfold Maybe. rewrite H. reflexivity. Qed.

Lemma Maybe_on_failure fn schema data error :
  safeParse schema data = Normal (SafeParseError error) ->
  Maybe fn schema data = Normal (optional_message error, JsNull).
Proof. intros H. unfold Maybe. rewrite H. reflexivity. Qed.

Lemma Maybe_inversion fn schema data pair :
  Maybe fn schema data = Normal pair ->
  (exists validated value,
      safeParse schema data = Normal (SafeParseSuccess validated) /\
      fn validated = Normal value /\ pair = (JsNull, value)) \/
  (exists error,
      safeParse schema data = Normal (SafeParseError error) /\
      pair = (optional_message error, JsNull)).
Proof.
  unfold Maybe, bind. intros H.
  destruct (safeParse schema data) as [[validated | error] | exn];
    try discriminate.
  - destruct (fn validated) as [value | exn] eqn:Hfn; try discriminate.
    injection H as <-. left. exists validated, value. auto.
  - injection H as <-. right. exists error. auto.
Qed.

(** ** The asynchronous wrapper *)

Lemma AsyncMaybe_on_success fn schema input validated :
  safeParseAsync schema input = Normal (Fulfilled (SafeParseSuccess validated)) ->
  AsyncMaybe fn schema (Fulfilled input) =
    async (try_catch (value <- fn validated ;; Normal (JsNull, value))
             (fun _ => Normal unknown_error)).
Proof. intros H. unfold AsyncMaybe. simpl. rewrite H. reflexivity. Qed.

Lemma AsyncMaybe_inversion fn schema pending pair :
  AsyncMaybe fn schema pending = Fulfilled pair ->
  pair = unknown_error \/
  exists input result,
    pending = Fulfilled input /\
    safeParseAsync schema input = Normal (Fulfilled result) /\
    match result with
    | SafeParseSuccess validated =>
        exists value, fn validated = Normal value /\ pair = (JsNull, value)
    | SafeParseError error => pair = (optional_message error, JsNull)
    end.
Proof.
  unfold AsyncMaybe. intros H.
  destruct pending as [input | reason]; simpl in H.
  2:{ injection H as <-. now left. }
  destruct (safeParseAsync schema input) as [[result | reason] | exn] eqn:Hp;
    simpl in H; try (injection H as <-; now left).
  destruct result as [validated | error]; simpl in H.
  - destruct (fn validated) as [value | exn] eqn:Hfn; simpl in H;
      injection H as <-; [right | now left].
    exists input, (SafeParseSuccess validated). repeat split; eauto.
  - injection H as <-. right.
    exists input, (SafeParseError error). repeat split; eauto.
Qed.

Lemma AsyncMaybe_fulfills fn schema pending :
  exists pair, AsyncMaybe fn schema pending = Fulfilled pair.
Proof.
  unfold AsyncMaybe.
  destruct pending as [input | reason]; simpl; [| eauto].
  destruct (safeParseAsync schema input) as [[result | reason] | exn];
    simpl; eauto.
  destruct result as [validated | error]; simpl; eauto.
  destruct (fn validated); simpl; eauto.
Qed.

(** ** Text: append, length, white space *)

Lemma append_assoc (a b c : string) : ((a ++ b) ++ c = a ++ (b ++ c))%string.
Proof. induction a as [| x a IH]; simpl; [reflexivity | now rewrite IH]. Qed.

Lemma length_append (a b : string) :
  String.length (a ++ b) = (String.length a + String.length b)%nat.
Proof. induction a as [| x a IH]; simpl; [reflexivity | now rewrite IH]. Qed.

Lemma skip_ws_append ws s :
  forall_chars is_ws ws = true -> skip_ws (ws ++ s) = skip_ws s.
Proof.
  induction ws as [| c ws IH]; simpl; [reflexivity |].
  intros H. apply andb_true_iff in H as [Hc Hws]. rewrite Hc. now apply IH.
Qed.

Lemma skip_ws_stop c s : is_ws c = false -> skip_ws (String c s) = String c s.
Proof. intros H. simpl. now rewrite H. Qed.

Lemma forall_chars_append p a b :
  forall_chars p (a ++ b) = forall_chars p a && forall_chars p b.
Proof.
  induction a as [| c a IH]; simpl; [reflexivity |].
  now rewrite IH, andb_assoc.
Qed.

(** ** String literals *)

Lemma parse_quote_char c t :
  parse_string_body (quote_char c ++ t) = prepend c (parse_string_body t).
Proof.
  destruct c as [[] [] [] [] [] [] [] []]; reflexivity.
Qed.

Lemma parse_string_body_quote s rest :
  parse_string_body (quote_chars s ++ String dquote rest) = Some (s, rest).
Proof.
  induction s as [| c s IH]; simpl; [reflexivity |].
  now rewrite append_assoc, parse_quote_char, IH.
Qed.

(** ** Numbers *)

Lemma span_digits_uint d rest :
  match rest with String c _ => is_digit c = false | EmptyString => True end ->
  span_digits (NilEmpty.string_of_uint d ++ rest) =
    (NilEmpty.string_of_uint d, rest).
Proof.
  intros Hrest.
  induction d; simpl; try (rewrite IHd; reflexivity).
  destruct rest as [| c rest]; simpl; [reflexivity | now rewrite Hrest].
Qed.

Lemma to_uint_unorm p : unorm (Pos.to_uint p) = Pos.to_uint p.
Proof.
  rewrite <- (DecimalPos.Unsigned.to_of (Pos.to_uint p)).
  now rewrite DecimalPos.Unsigned.of_to.
Qed.

Lemma to_uint_no_leading_zero p d : Pos.to_uint p <> D0 d.
Proof.
  intros H. pose proof (to_uint_unorm p) as Hn. rewrite H in Hn.
  rewrite unorm_D0 in Hn.
  destruct (uint_eq_dec d Nil) as [-> | Hd].
  - apply (DecimalPos.Unsigned.to_uint_nonzero p). exact H.
  - pose proof (nb_digits_unorm d Hd) as Hl.
    rewrite Hn in Hl. simpl in Hl. lia.
Qed.

Lemma string_of_uint_digits d :
  d <> Nil ->
  exists c t, NilEmpty.string_of_uint d = String c t /\ is_digit c = true.
Proof.
  destruct d; [congruence | ..]; intros _; simpl; eauto.
Qed.

Lemma ends_number_digit rest :
  ends_number rest = true ->
  match rest with String c _ => is_digit c = false | EmptyString => True end.
Proof.
  destruct rest as [| c rest]; [trivial |]. unfold ends_number.
  intros H. apply andb_true_iff in H as [H _]. now apply negb_true_iff in H.
Qed.

Lemma ends_number_fraction rest :
  ends_number rest = true -> starts_fraction rest = false.
Proof.
  destruct rest as [| c rest]; [reflexivity |]. unfold ends_number.
  intros H. apply andb_true_iff in H as [_ H]. now apply negb_true_iff in H.
Qed.

Lemma parse_unsigned_uint d rest :
  d <> Nil ->
  leading_zero (NilEmpty.string_of_uint d) = false ->
  ends_number rest = true ->
  parse_unsigned (NilEmpty.string_of_uint d ++ rest) = Some (Z.of_uint d, rest).
Proof.
  intros Hd Hzero Hrest. unfold parse_unsigned.
  rewrite span_digits_uint by now apply ends_number_digit.
  rewrite Hzero, (ends_number_fraction _ Hrest), NilEmpty.usu. simpl.
  destruct (string_of_uint_digits d Hd) as (c & t & -> & _).
  reflexivity.
Qed.

Lemma to_uint_leading_zero p :
  leading_zero (NilEmpty.string_of_uint (Pos.to_uint p)) = false.
Proof.
  pose proof (to_uint_no_leading_zero p) as Hz.
  destruct (Pos.to_uint p) as [| d | d | d | d | d | d | d | d | d | d];
    simpl; try reflexivity;
    try (destruct (NilEmpty.string_of_uint d); reflexivity).
  now elim (Hz d).
Qed.

Lemma parse_unsigned_to_uint p rest :
  ends_number rest = true ->
  parse_unsigned (NilEmpty.string_of_uint (Pos.to_uint p) ++ rest)
  = Some (Z.pos p, rest).
Proof.
  intros Hrest.
  rewrite parse_unsigned_uint;
    auto using DecimalPos.Unsigned.to_uint_nonnil, to_uint_leading_zero.
  unfold Z.of_uint. now rewrite DecimalPos.Unsigned.of_to.
Qed.

Lemma parse_number_NumberToString n rest :
  ends_number rest = true ->
  parse_number (NumberToString n ++ rest) = Some (n, rest).
Proof.
  intros Hrest. unfold NumberToString.
  destruct n as [| p | p].
  - change (parse_unsigned (NilEmpty.string_of_uint (D0 Nil) ++ rest)
            = Some (0, rest)).
    now rewrite parse_unsigned_uint.
  - destruct (string_of_uint_digits (Pos.to_uint p)
                (DecimalPos.Unsigned.to_uint_nonnil p)) as (c & t & E & Hc).
    pose proof (parse_unsigned_to_uint p rest Hrest) as H.
    simpl. rewrite E in *. simpl.
    assert (Ascii.eqb c "-" = false) as ->.
    { apply Ascii.eqb_neq. intros ->. discriminate Hc. }
    exact H.
  - simpl. now rewrite parse_unsigned_to_uint.
Qed.

Lemma NumberToString_head n :
  exists c t,
    NumberToString n = String c t /\ is_number_start c = true /\ is_ws c = false.
Proof.
  assert (digit : forall c, is_digit c = true ->
            is_number_start c = true /\ is_ws c = false).
  { intros c. destruct c as [[] [] [] [] [] [] [] []]; try discriminate; auto. }
  unfold NumberToString. destruct n as [| p | p]; simpl.
  - exists "0"%char, EmptyString. auto.
  - destruct (string_of_uint_digits (Pos.to_uint p)
                (DecimalPos.Unsigned.to_uint_nonnil p)) as (c & t & -> & Hc).
    exists c, t. split; [reflexivity | now apply digit].
  - eexists _, _. split; [reflexivity | auto].
Qed.

(** ** Induction on values, through the lists of arrays and objects *)

Lemma JsValue_induction (P : JsValue -> Prop) :
  P JsUndefined -> P JsNull -> (forall b, P (JsBool b)) ->
  (forall n, P (JsNumber n)) -> (forall s, P (JsString s)) ->
  (forall items, Forall P items -> P (JsArray items)) ->
  (forall fields, Forall (fun member => P (snd member)) fields ->
                  P (JsObject fields)) ->
  (forall p, P (JsPromise p)) ->
  forall v, P v.
Proof.
  intros Hu Hn Hb Hz Hs Ha Ho Hp.
  fix IH 1. intros [| | b | n | s | items | fields | p].
  - exact Hu.
  - exact Hn.
  - apply Hb.
  - apply Hz.
  - apply Hs.
  - apply Ha. induction items as [| item items IHitems]; constructor;
      [apply IH | exact IHitems].
  - apply Ho. induction fields as [| [key value] fields IHfields]; constructor;
      [apply IH | exact IHfields].
  - apply Hp.
Qed.

(** ** The reader, one equation per kind of value *)

Lemma parse_value_skip_ws fuel ws s :
  forall_chars is_ws ws = true ->
  parse_value fuel (ws ++ s) = parse_value fuel s.
Proof.
  intros H. destruct fuel; [reflexivity |]. simpl.
  now rewrite skip_ws_append.
Qed.

Lemma parse_value_number fuel c s :
  is_ws c = false -> is_number_start c = true ->
  parse_value (S fuel) (String c s) =
    match parse_number (String c s) with
    | Some (n, rest) => Some (JsNumber n, rest)
    | None => None
    end.
Proof. intros Hws Hc. simpl. now rewrite Hws, Hc. Qed.

Lemma parse_value_string fuel s :
  parse_value (S fuel) (String dquote s) =
    match parse_string_body s with
    | Some (str, rest) => Some (JsString str, rest)
    | None => None
    end.
Proof. reflexivity. Qed.

Lemma parse_value_array fuel s :
  parse_value (S fuel) (String "[" s) =
    if next_is "]" (skip_ws s) then Some (JsArray [], tail (skip_ws s))
    else
      match parse_elements fuel s with
      | Some (items, rest) => Some (JsArray items, rest)
      | None => None
      end.
Proof. reflexivity. Qed.

Lemma parse_value_object fuel s :
  parse_value (S fuel) (String "{" s) =
    if next_is "}" (skip_ws s) then Some (JsObject [], tail (skip_ws s))
    else
      match parse_members fuel s with
      | Some (fields, rest) => Some (JsObject fields, rest)
      | None => None
      end.
Proof. reflexivity. Qed.

Lemma parse_elements_step fuel s :
  parse_elements (S fuel) s =
    match parse_value fuel s with
    | None => None
    | Some (item, rest) =>
        if next_is "]" (skip_ws rest) then Some ([item], tail (skip_ws rest))
        else if next_is "," (skip_ws rest) then
          match parse_elements fuel (tail (skip_ws rest)) with
          | Some (items, rest') => Some (item :: items, rest')
          | None => None
          end
        else None
    end.
Proof. reflexivity. Qed.

Lemma parse_members_step fuel s :
  parse_members (S fuel) s =
    if next_is dquote (skip_ws s) then
      match parse_string_body (tail (skip_ws s)) with
      | None => None
      | Some (key, s') =>
          if next_is ":" (skip_ws s') then
            match parse_value fuel (tail (skip_ws s')) with
            | None => None
            | Some (value, rest) =>
                if next_is "}" (skip_ws rest) then
                  Some ([(key, value)], tail (skip_ws rest))
                else if next_is "," (skip_ws rest) then
                  match parse_members fuel (tail (skip_ws rest)) with
                  | Some (fields, rest') => Some ((key, value) :: fields, rest')
                  | None => None
                  end
                else None
            end
          else None
      end
    else None.
Proof. reflexivity. Qed.

(** ** The writer, by kind of value *)

Lemma serialize_array gap indent items :
  SerializeJSONProperty gap indent (JsArray items) =
    container_text "[" "]" (indent ++ gap) indent
      (map (SerializeJSONProperty gap (indent ++ gap)) items).
Proof.
  simpl. unfold container_text.
  destruct (map (SerializeJSONProperty gap (indent ++ gap)) items); reflexivity.
Qed.

Lemma serialize_object gap indent fields :
  forallb (fun member => match member with (_, value) => json_data value end)
    fields = true ->
  SerializeJSONProperty gap indent (JsObject fields) =
    container_text "{" "}" (indent ++ gap) indent
      (map (member_text gap (indent ++ gap)) fields).
Proof.
  intros Hdata. simpl.
  match goal with
  | |- context [flat_map ?f fields] =>
      assert (flat_map f fields = map (member_text gap (indent ++ gap)) fields)
        as ->
  end.
  { induction fields as [| [key value] fields IH]; [reflexivity |].
    simpl in Hdata. apply andb_true_iff in Hdata as [Hv Hrest].
    simpl. rewrite (IH Hrest).
    destruct value; try discriminate Hv; reflexivity. }
  unfold container_text.
  destruct (map (member_text gap (indent ++ gap)) fields); reflexivity.
Qed.

Lemma serialize_head gap indent v :
  json_data v = true ->
  exists c t, SerializeJSONProperty gap indent v = String c t /\
              opens_value c = true.
Proof.
  destruct v as [| | b | n | s | items | fields | p]; intros Hdata;
    try discriminate Hdata.
  - now exists "n"%char, "ull".
  - destruct b; eexists _, _; split; reflexivity.
  - destruct (NumberToString_head n) as (c & t & E & Hc & _).
    exists c, t. split; [exact E |].
    revert Hc. clear.
    destruct c as [[] [] [] [] [] [] [] []]; try discriminate; reflexivity.
  - eexists _, _; split; reflexivity.
  - rewrite serialize_array. unfold container_text.
    destruct (map _ items); eexists _, _; split; reflexivity.
  - rewrite serialize_object by exact Hdata. unfold container_text.
    destruct (map _ fields); eexists _, _; split; reflexivity.
Qed.

(** ** Reading back what was written *)

Lemma skip_ws_line ws s :
  forall_chars is_ws ws = true ->
  skip_ws (String newline (ws ++ s)) = skip_ws s.
Proof. intros H. change (skip_ws (ws ++ s) = skip_ws s). now apply skip_ws_append. Qed.

Lemma parse_elements_concat indent stepback rest items :
  forall_chars is_ws indent = true ->
  forall_chars is_ws stepback = true ->
  Forall (fun v => json_data v = true -> reads_back v) items ->
  forallb json_data items = true ->
  items <> [] ->
  forall fuel ws,
    (list_sum (map (fun item => S (nesting item)) items) <= fuel)%nat ->
    forall_chars is_ws ws = true ->
    parse_elements fuel
      (ws ++ String.concat (String "," (String newline indent))
               (map (SerializeJSONProperty "  " indent) items)
          ++ String newline (stepback ++ String "]" rest))
    = Some (items, rest).
Proof.
  intros Hindent Hstep Hall Hdata.
  induction items as [| v vs IH]; [congruence |]. intros _ fuel ws Hfuel Hws.
  inversion Hall as [| ? ? Hv Hvs]; subst.
  simpl in Hdata. apply andb_true_iff in Hdata as [Hdv Hdvs].
  simpl in Hfuel. destruct fuel as [| fuel]; [lia |].
  rewrite parse_elements_step, parse_value_skip_ws by exact Hws.
  destruct vs as [| v' vs].
  - simpl String.concat.
    rewrite (Hv Hdv indent) by (auto; lia).
    rewrite skip_ws_line by exact Hstep. reflexivity.
  - change (String.concat ?sep (map ?f (v :: v' :: vs)))
      with (f v ++ sep ++ String.concat sep (map f (v' :: vs))).
    rewrite !append_assoc.
    rewrite (Hv Hdv indent) by (auto; lia).
    match goal with
    | |- context [skip_ws (String "," ?a ++ ?s)] =>
        change (skip_ws (String "," a ++ s)) with (String "," (a ++ s))
    end.
    cbn [next_is tail]. simpl (Ascii.eqb _ _). cbv iota.
    rewrite (IH Hvs Hdvs); [reflexivity | discriminate | simpl in *; lia |].
    simpl. exact Hindent.
Qed.

Lemma member_text_append gap indent key value s :
  member_text gap indent (key, value) ++ s =
    String dquote
      (quote_chars key
         ++ String dquote
              (String ":" (String " " (SerializeJSONProperty gap indent value ++ s)))).
Proof.
  unfold member_text, QuoteJSONString. simpl.
  now rewrite !append_assoc.
Qed.

Lemma parse_member fuel indent key value s :
  json_data value = true ->
  (json_data value = true -> reads_back value) ->
  forall_chars is_ws indent = true ->
  (nesting value <= fuel)%nat ->
  ends_number s = true ->
  forall ws, forall_chars is_ws ws = true ->
  parse_members (S fuel) (ws ++ member_text "  " indent (key, value) ++ s) =
    if next_is "}" (skip_ws s) then Some ([(key, value)], tail (skip_ws s))
    else if next_is "," (skip_ws s) then
      match parse_members fuel (tail (skip_ws s)) with
      | Some (fields, rest') => Some ((key, value) :: fields, rest')
      | None => None
      end
    else None.
Proof.
  intros Hdata Hback Hindent Hfuel Hs ws Hws.
  rewrite parse_members_step, skip_ws_append by exact Hws.
  rewrite member_text_append.
  change (skip_ws (String dquote ?x)) with (String dquote x).
  cbn [next_is tail]. simpl (Ascii.eqb dquote dquote). cbv iota.
  rewrite parse_string_body_quote.
  change (skip_ws (String ":" ?x)) with (String ":" x).
  cbn [next_is tail]. simpl (Ascii.eqb _ _). cbv iota.
  change (String " " ?x) with (String " " EmptyString ++ x).
  rewrite parse_value_skip_ws by reflexivity.
  now rewrite (Hback Hdata indent).
Qed.

Lemma parse_members_concat indent stepback rest fields :
  forall_chars is_ws indent = true ->
  forall_chars is_ws stepback = true ->
  Forall (fun member => json_data (snd member) = true -> reads_back (snd member))
    fields ->
  forallb (fun member => match member with (_, value) => json_data value end)
    fields = true ->
  fields <> [] ->
  forall fuel ws,
    (list_sum (map (fun member =>
        match member with (_, value) => S (nesting value) end) fields)
     <= fuel)%nat ->
    forall_chars is_ws ws = true ->
    parse_members fuel
      (ws ++ String.concat (String "," (String newline indent))
               (map (member_text "  " indent) fields)
          ++ String newline (stepback ++ String "}" rest))
    = Some (fields, rest).
Proof.
  intros Hindent Hstep Hall Hdata.
  induction fields as [| [key v] vs IH]; [congruence |].
  intros _ fuel ws Hfuel Hws.
  inversion Hall as [| ? ? Hv Hvs]; subst. simpl in Hv.
  simpl in Hdata. apply andb_true_iff in Hdata as [Hdv Hdvs].
  simpl in Hfuel. destruct fuel as [| fuel]; [lia |].
  destruct vs as [| m vs].
  - simpl String.concat.
    rewrite parse_member by (auto; lia).
    rewrite skip_ws_line by exact Hstep. reflexivity.
  - change (String.concat ?sep (map ?f ((key, v) :: m :: vs)))
      with (f (key, v) ++ sep ++ String.concat sep (map f (m :: vs))).
    rewrite !append_assoc.
    rewrite parse_member by (auto; lia).
    match goal with
    | |- context [skip_ws (String "," ?a ++ ?s)] =>
        change (skip_ws (String "," a ++ s)) with (String "," (a ++ s))
    end.
    cbn [next_is tail]. simpl (Ascii.eqb _ _). cbv iota.
    rewrite (IH Hvs Hdvs); [reflexivity | discriminate | simpl in *; lia |].
    simpl. exact Hindent.
Qed.

Lemma spaces_indent indent :
  forall_chars is_ws indent = true -> forall_chars is_ws (indent ++ "  ") = true.
Proof. intros H. now rewrite forall_chars_append, H. Qed.

Lemma container_text_cons o c indent stepback text texts rest :
  container_text (String o "") (String c "") indent stepback (text :: texts)
    ++ rest =
  String o (String newline indent
              ++ String.concat (String "," (String newline indent)) (text :: texts)
              ++ String newline (stepback ++ String c rest)).
Proof.
  unfold container_text. now rewrite !append_assoc.
Qed.

Lemma concat_head sep c t texts s :
  exists t', String.concat sep (String c t :: texts) ++ s = String c t'.
Proof. destruct texts; simpl; eauto. Qed.

Lemma next_is_opening closing sep text texts s :
  (exists c t, text = String c t /\ opens_value c = true) ->
  Ascii.eqb closing "]" || Ascii.eqb closing "}" = true ->
  next_is closing (skip_ws (String.concat sep (text :: texts) ++ s)) = false.
Proof.
  intros (c & t & -> & Hc) Hclosing.
  destruct (concat_head sep c t texts s) as [t' ->].
  unfold opens_value in Hc.
  apply andb_true_iff in Hc as [Hc _].
  apply andb_true_iff in Hc as [Hc Hbrace].
  apply andb_true_iff in Hc as [Hws Hbracket].
  apply negb_true_iff in Hws, Hbracket, Hbrace.
  rewrite skip_ws_stop by exact Hws. simpl.
  apply orb_true_iff in Hclosing as [H | H]; apply Ascii.eqb_eq in H; now subst.
Qed.

(** Every value of JSON is read back from its text. *)
Lemma parse_value_serialize v : json_data v = true -> reads_back v.
Proof.
  induction v as [| | b | n | s | items IH | fields IH | p]
    using JsValue_induction;
    intros Hdata; try discriminate Hdata;
    intros indent rest fuel Hindent Hfuel Hrest;
    (destruct fuel as [| fuel]; [simpl in Hfuel; lia |]).
  - reflexivity.
  - destruct b; reflexivity.
  - destruct (NumberToString_head n) as (c & t & E & Hc & Hws).
    cbn [SerializeJSONProperty].
    pose proof (parse_number_NumberToString n rest Hrest) as H.
    rewrite E in *. simpl append in *.
    now rewrite parse_value_number, H.
  - cbn [SerializeJSONProperty]. unfold QuoteJSONString. simpl append.
    rewrite append_assoc, parse_value_string.
    change (String dquote "" ++ rest) with (String dquote rest).
    now rewrite parse_string_body_quote.
  - rewrite serialize_array.
    destruct items as [| item items]; [reflexivity |].
    pose proof (spaces_indent indent Hindent) as Hin.
    cbn [map]. rewrite container_text_cons, parse_value_array.
    rewrite skip_ws_append by exact Hin.
    rewrite next_is_opening.
    + change (?f item :: map ?f items) with (map f (item :: items)).
      rewrite (parse_elements_concat (indent ++ "  ") indent rest (item :: items));
        auto; try discriminate.
      simpl in Hfuel. simpl. lia.
    + simpl in Hdata. apply andb_true_iff in Hdata as [Hd _].
      now apply serialize_head.
    + reflexivity.
  - rewrite serialize_object by exact Hdata.
    destruct fields as [| [key value] fields]; [reflexivity |].
    pose proof (spaces_indent indent Hindent) as Hin.
    cbn [map]. rewrite container_text_cons, parse_value_object.
    rewrite skip_ws_append by exact Hin.
    rewrite next_is_opening.
    + change (?f (key, value) :: map ?f fields)
        with (map f ((key, value) :: fields)).
      rewrite (parse_members_concat (indent ++ "  ") indent rest
                 ((key, value) :: fields));
        auto; try discriminate.
      simpl in Hfuel. simpl. lia.
    + eexists _, _. split; reflexivity.
    + reflexivity.
Qed.

(** ** One unit of fuel per character is enough *)

Lemma append_empty (s : string) : s ++ "" = s.
Proof. induction s as [| c s IH]; simpl; [reflexivity | now rewrite IH]. Qed.

Lemma concat_length {A : Type} (text : A -> string) (cost : A -> nat) sep l :
  (1 <= String.length sep)%nat ->
  Forall (fun a => (cost a <= S (String.length (text a)))%nat) l ->
  (list_sum (map cost l) <= String.length (String.concat sep (map text l)) + 1)%nat.
Proof.
  intros Hsep Hall. induction Hall as [| a l Ha Hl IH]; simpl; [lia |].
  destruct l as [| b l]; simpl in *; [lia |].
  rewrite !length_append. lia.
Qed.

Lemma container_text_length o c indent stepback texts :
  (S (String.length (String.concat (String "," (String newline indent)) texts) + 1)
   <= String.length (container_text (String o "") (String c "") indent stepback texts))%nat.
Proof.
  unfold container_text. destruct texts as [| text texts]; [simpl; lia |].
  rewrite !length_append. simpl String.length. lia.
Qed.

Lemma nesting_bound v :
  json_data v = true ->
  forall indent,
    (nesting v <= String.length (SerializeJSONProperty "  " indent v))%nat.
Proof.
  induction v as [| | b | n | s | items IH | fields IH | p]
    using JsValue_induction;
    intros Hdata indent; try discriminate Hdata.
  - simpl. lia.
  - destruct b; simpl; lia.
  - destruct (NumberToString_head n) as (c & t & E & _).
    cbn [SerializeJSONProperty nesting]. rewrite E. simpl. lia.
  - simpl. lia.
  - rewrite serialize_array.
    etransitivity; [| apply container_text_length]. simpl nesting.
    apply le_n_S, concat_length; [simpl; lia |].
    simpl in Hdata. rewrite forallb_forall in Hdata.
    rewrite Forall_forall in *. intros item Hin.
    apply le_n_S, IH; auto.
  - rewrite serialize_object by exact Hdata.
    etransitivity; [| apply container_text_length]. simpl nesting.
    apply le_n_S, concat_length; [simpl; lia |].
    simpl in Hdata. rewrite forallb_forall in Hdata.
    rewrite Forall_forall in *. intros [key value] Hin.
    specialize (IH _ Hin (Hdata _ Hin) (indent ++ "  ")). simpl in IH.
    unfold member_text. rewrite !length_append. simpl. lia.
Qed.

(** [JSON.parse] undoes [JSON.stringify(value, null, 2)]. *)
Lemma JSON_parse_stringify v :
  json_data v = true ->
  JSON_parse (SerializeJSONProperty "  " "" v) = Normal v.
Proof.
  intros Hdata. unfold JSON_parse.
  pose proof (parse_value_serialize v Hdata "" ""
                (S (String.length (SerializeJSONProperty "  " "" v)))) as H.
  rewrite append_empty in H. rewrite H; [reflexivity | reflexivity | | reflexivity].
  pose proof (nesting_bound v Hdata ""). lia.
Qed.

Lemma path_json_data path : json_data (path_json path) = true.
Proof.
  unfold path_json. simpl.
  induction path as [| [key | index] path IH]; simpl; auto.
Qed.

Lemma issue_json_data issue : json_data (issue_json issue) = true.
Proof.
  destruct issue; simpl; rewrite ?andb_true_r;
    apply (path_json_data path).
Qed.

Lemma issues_json_data found : json_data (JsArray (map issue_json found)) = true.
Proof.
  simpl. induction found as [| issue found IH]; [reflexivity |].
  simpl map. simpl forallb. now rewrite issue_json_data.
Qed.

(** The message of a [ZodError] decodes to its issues, one entry each. *)
Lemma JSON_parse_message error :
  JSON_parse (ZodError_message error)
  = Normal (JsArray (map issue_json (issues error))).
Proof. apply JSON_parse_stringify, issues_json_data. Qed.

(** ** The engine reports one issue per broken rule *)

Lemma ZodType_induction (P : ZodType -> Prop) :
  (forall checks, P (ZodString checks)) ->
  (forall checks, P (ZodNumber checks)) ->
  P ZodBoolean ->
  (forall element, P element -> P (ZodArray element)) ->
  (forall shape, Forall (fun entry => P (snd entry)) shape -> P (ZodObject shape)) ->
  forall schema, P schema.
Proof.
  intros Hs Hn Hb Ha Ho.
  fix IH 1. intros [checks | checks | | element | shape].
  - apply Hs.
  - apply Hn.
  - exact Hb.
  - apply Ha, IH.
  - apply Ho. induction shape as [| [key member] shape IHshape]; constructor;
      [apply IH | exact IHshape].
Qed.

Lemma length_flat_map_sum {A B : Type} (f : A -> list B) l :
  List.length (flat_map f l) = list_sum (map (fun a => List.length (f a)) l).
Proof.
  induction l as [| a l IH]; simpl; [reflexivity |].
  now rewrite List.length_app, IH.
Qed.

Lemma count_broken_issues {A : Type} (holds : A -> bool)
    (report : A -> list ZodIssue) rules :
  (forall rule, List.length (report rule) = if holds rule then 0%nat else 1%nat) ->
  List.length (flat_map report rules) = count_broken holds rules.
Proof.
  intros H. unfold count_broken.
  induction rules as [| rule rules IH]; simpl; [reflexivity |].
  rewrite List.length_app, IH, H. now destruct (holds rule).
Qed.

Lemma string_check_rule path data check :
  List.length (string_check path data check)
  = if string_rule check data then 0%nat else 1%nat.
Proof.
  destruct check as [value | value |]; simpl.
  - destruct (Z.ltb_spec (Z.of_nat (String.length data)) value),
      (Z.leb_spec value (Z.of_nat (String.length data))); simpl; lia.
  - rewrite Z.gtb_ltb.
    destruct (Z.ltb_spec value (Z.of_nat (String.length data))),
      (Z.leb_spec (Z.of_nat (String.length data)) value); simpl; lia.
  - now destruct (emailRegex_test data).
Qed.

Lemma number_check_rule path data check :
  List.length (number_check path data check)
  = if number_rule check data then 0%nat else 1%nat.
Proof.
  destruct check as [| value [|] | value [|]]; simpl; try reflexivity;
    rewrite ?Z.gtb_ltb, ?Z.geb_leb;
    repeat match goal with
           | |- context [?a <? ?b] => destruct (Z.ltb_spec a b)
           | |- context [?a <=? ?b] => destruct (Z.leb_spec a b)
           end; simpl; lia.
Qed.

Lemma parse_items_issues parse count path items :
  (forall path item, List.length (fst (parse path item)) = count item) ->
  forall index,
    List.length (fst (parse_items parse path index items))
    = list_sum (map count items).
Proof.
  intros H. induction items as [| item items IH]; intros index; simpl;
    [reflexivity |].
  specialize (H (path ++ [PathIndex index])%list item).
  specialize (IH (S index)).
  destruct (parse _ item) as [found value].
  destruct (parse_items parse path (S index) items) as [found' values].
  simpl in *. rewrite List.length_app. lia.
Qed.

Lemma parse_issues schema :
  forall path input,
    List.length (fst (_parse schema path input)) = rule_violations schema input.
Proof.
  induction schema as [checks | checks | | element IH | shape IH]
    using ZodType_induction; intros path input.
  - destruct input; try reflexivity. simpl.
    apply count_broken_issues, string_check_rule.
  - destruct input; try reflexivity. simpl.
    apply count_broken_issues, number_check_rule.
  - destruct input; reflexivity.
  - destruct input; try reflexivity. simpl.
    pose proof (parse_items_issues (_parse element) (rule_violations element)
                  path items IH 0%nat) as H.
    destruct (parse_items (_parse element) path 0 items). exact H.
  - destruct input; try reflexivity. simpl.
    rewrite length_flat_map_sum, map_map. f_equal.
    induction IH as [| [key member] shape Hmember _ IHshape]; simpl;
      [reflexivity |].
    now rewrite Hmember, IHshape.
Qed.

Lemma zod_failure schema data :
  (1 <= rule_violations schema data)%nat ->
  safeParse (zod schema) data
  = Normal (SafeParseError (Some (mkZodError (fst (_parse schema [] data))))).
Proof.
  intros H. simpl. pose proof (parse_issues schema [] data) as Hlen.
  destruct (_parse schema [] data) as [[| issue found] value]; simpl in *;
    [lia | reflexivity].
Qed.

(** ** The claims *)

(** C1, as stated, fails: with the transform [() => {}] of the product demo
    and a schema that accepts the input, both slots of the pair are empty. *)
Lemma result_pair_both_absent :
  exists pair,
    Maybe noop (zod ZodBoolean) (JsBool true) = Normal pair /\
    AsyncMaybe noop (zod ZodBoolean) (Fulfilled (JsBool true)) = Fulfilled pair /\
    exclusive pair = false.
Proof. exists (JsNull, JsUndefined). repeat split. Qed.

(** C1, amended: a pair returned by [Maybe], or fulfilled by [AsyncMaybe],
    never has both slots present; it has exactly one present slot, except
    that both are absent when the validation succeeded and the transform
    itself returned an empty value, and when the failure outcome carried no
    error object. *)
Theorem result_pair_discipline fn schema pair :
  (exists data, Maybe fn schema data = Normal pair) \/
  (exists pending, AsyncMaybe fn schema pending = Fulfilled pair) ->
  present (fst pair) && present (snd pair) = false /\
  (exclusive pair = true \/
   (exists input validated,
      (safeParse schema input = Normal (SafeParseSuccess validated) \/
       safeParseAsync schema input
       = Normal (Fulfilled (SafeParseSuccess validated))) /\
      fn validated = Normal (snd pair) /\
      absent (snd pair) = true /\ fst pair = JsNull) \/
   (exists input,
      (safeParse schema input = Normal (SafeParseError None) \/
       safeParseAsync schema input = Normal (Fulfilled (SafeParseError None))) /\
      pair = (JsUndefined, JsNull))).
Proof.
  assert (cases :
    pair = unknown_error \/
    (exists input validated value,
        (safeParse schema input = Normal (SafeParseSuccess validated) \/
         safeParseAsync schema input
         = Normal (Fulfilled (SafeParseSuccess validated))) /\
        fn validated = Normal value /\ pair = (JsNull, value)) \/
    (exists input error,
        (safeParse schema input = Normal (SafeParseError error) \/
         safeParseAsync schema input = Normal (Fulfilled (SafeParseError error))) /\
        pair = (optional_message error, JsNull)) ->
    present (fst pair) && present (snd pair) = false /\
    (exclusive pair = true \/
     (exists input validated,
        (safeParse schema input = Normal (SafeParseSuccess validated) \/
         safeParseAsync schema input
         = Normal (Fulfilled (SafeParseSuccess validated))) /\
        fn validated = Normal (snd pair) /\
        absent (snd pair) = true /\ fst pair = JsNull) \/
     (exists input,
        (safeParse schema input = Normal (SafeParseError None) \/
         safeParseAsync schema input = Normal (Fulfilled (SafeParseError None))) /\
        pair = (JsUndefined, JsNull)))).
  { intros [-> | [(input & validated & value & Hparse & Hfn & ->)
                 | (input & [e |] & Hparse & ->)]].
    - split; [reflexivity | now left].
    - split; [reflexivity |].
      destruct (absent value) eqn:Ha.
      + right; left. exists input, validated. simpl. auto.
      + left. unfold exclusive, present. simpl. now rewrite Ha.
    - split; [reflexivity | now left].
    - split; [reflexivity |]. right; right. exists input. auto. }
  intros [[data H] | [pending H]]; apply cases.
  - apply Maybe_inversion in H.
    destruct H as [(validated & value & Hparse & Hfn & ->)
                  | (error & Hparse & ->)].
    + right; left. exists data, validated, value. auto.
    + right; right. exists data, error. auto.
  - apply AsyncMaybe_inversion in H.
    destruct H as [-> | (input & [validated | error] & _ & Hparse & H)].
    + now left.
    + destruct H as (value & Hfn & ->).
      right; left. exists input, validated, value. auto.
    + subst pair. right; right. exists input, error. auto.
Qed.

Lemma result_pair_discipline_witness :
  present (fst (JsNull, JsNumber 15)) && present (snd (JsNull, JsNumber 15)) = false /\
  exclusive (JsNull, JsNumber 15) = true.
Proof.
  pose proof (result_pair_discipline (on_numbers sum)
                (zod (ZodArray (ZodNumber []))) (JsNull, JsNumber 15)) as H.
  destruct H as [Hboth _].
  - left.
    exists (JsArray [JsNumber 1; JsNumber 2; JsNumber 3; JsNumber 4; JsNumber 5]).
    reflexivity.
  - split; [exact Hboth | reflexivity].
Defined.

(** C2: when the schema accepts the input, [Maybe] returns [null] and the
    transform's result on the validated data; with [z.array(z.number())]
    and [sum], the input 1,2,3,4,5 gives the pair of [null] and 15. *)
Theorem Maybe_success fn schema data validated value :
  safeParse schema data = Normal (SafeParseSuccess validated) ->
  fn validated = Normal value ->
  Maybe fn schema data = Normal (JsNull, value) /\
  Maybe (on_numbers sum) (zod (ZodArray (ZodNumber [])))
    (JsArray [JsNumber 1; JsNumber 2; JsNumber 3; JsNumber 4; JsNumber 5])
  = Normal (JsNull, JsNumber 15).
Proof.
  intros Hparse Hfn. split; [| reflexivity].
  rewrite (Maybe_on_success _ _ _ _ Hparse), Hfn. reflexivity.
Qed.

Lemma Maybe_success_witness :
  Maybe (on_numbers sum) (zod (ZodArray (ZodNumber [])))
    (JsArray [JsNumber 4; JsNumber 6]) = Normal (JsNull, JsNumber 10) /\
  Maybe (on_numbers sum) (zod (ZodArray (ZodNumber [])))
    (JsArray [JsNumber 1; JsNumber 2; JsNumber 3; JsNumber 4; JsNumber 5])
  = Normal (JsNull, JsNumber 15).
Proof.
  apply (Maybe_success (on_numbers sum) (zod (ZodArray (ZodNumber [])))
           (JsArray [JsNumber 4; JsNumber 6]) (JsArray [JsNumber 4; JsNumber 6]));
    reflexivity.
Defined.

(** C3: a pending input that rejects, whatever the reason, makes
    [AsyncMaybe] fulfil with the pair of ['Unknown error'] and [null]; the
    reason does not appear in the result. *)
Theorem AsyncMaybe_rejected_input fn schema reason :
  AsyncMaybe fn schema (Rejected reason) = Fulfilled (JsString "Unknown error", JsNull).
Proof.
  unfold AsyncMaybe.
  change (await (Rejected reason)) with (@Throw JsValue reason).
  unfold bind, try_catch, async. reflexivity.
Qed.

(** C4: when the pending input fulfils with a value the schema accepts,
    [AsyncMaybe] fulfils with [null] and the transform's result on the
    validated data; a result that is itself a pending value sits in the
    value slot as it is. *)
Theorem AsyncMaybe_success fn schema input validated value :
  safeParseAsync schema input = Normal (Fulfilled (SafeParseSuccess validated)) ->
  fn validated = Normal value ->
  AsyncMaybe fn schema (Fulfilled input) = Fulfilled (JsNull, value) /\
  (forall p, value = JsPromise p ->
     AsyncMaybe fn schema (Fulfilled input) = Fulfilled (JsNull, JsPromise p)).
Proof.
  intros Hparse Hfn.
  assert (AsyncMaybe fn schema (Fulfilled input) = Fulfilled (JsNull, value)) as H.
  { rewrite (AsyncMaybe_on_success _ _ _ _ Hparse), Hfn. reflexivity. }
  split; [exact H |]. intros p <-. exact H.
Qed.

Lemma AsyncMaybe_success_witness :
  AsyncMaybe pending_identity (zod (ZodString [])) (Fulfilled (JsString "test"))
  = Fulfilled (JsNull, JsPromise (Fulfilled (JsString "test"))) /\
  (forall p, JsPromise (Fulfilled (JsString "test")) = JsPromise p ->
     AsyncMaybe pending_identity (zod (ZodString [])) (Fulfilled (JsString "test"))
     = Fulfilled (JsNull, JsPromise p)).
Proof.
  apply (AsyncMaybe_success pending_identity (zod (ZodString []))
           (JsString "test") (JsString "test")); reflexivity.
Defined.

(** C5, as stated, fails: a transform that raises on accepted input does
    not make the promise of [AsyncMaybe] reject; the promise fulfils with
    the pair of the [catch] block. *)
Lemma AsyncMaybe_raising_transform_no_rejection :
  safeParseAsync (zod ZodBoolean) (JsBool true)
    = Normal (Fulfilled (SafeParseSuccess (JsBool true))) /\
  raising (JsBool true) = Throw (JsString "boom") /\
  AsyncMaybe raising (zod ZodBoolean) (Fulfilled (JsBool true))
    = Fulfilled (JsString "Unknown error", JsNull) /\
  ~ exists reason,
      AsyncMaybe raising (zod ZodBoolean) (Fulfilled (JsBool true)) = Rejected reason.
Proof.
  repeat split. intros [reason H]. discriminate H.
Qed.

(** C5, amended: in [AsyncMaybe] the call of the transform is inside the
    [try] block, so a transform that raises on the validated data is caught
    and the promise fulfils with the pair of ['Unknown error'] and [null]. *)
Theorem AsyncMaybe_transform_raises fn schema input validated exn :
  safeParseAsync schema input = Normal (Fulfilled (SafeParseSuccess validated)) ->
  fn validated = Throw exn ->
  AsyncMaybe fn schema (Fulfilled input) = Fulfilled (JsString "Unknown error", JsNull).
Proof.
  intros Hparse Hfn.
  rewrite (AsyncMaybe_on_success _ _ _ _ Hparse), Hfn. reflexivity.
Qed.

Lemma AsyncMaybe_transform_raises_witness :
  AsyncMaybe raising (zod userSchema)
    (Fulfilled (JsObject [("name", JsString "Alice"); ("age", JsNumber 30);
                          ("email", JsString "alice@example.com")]))
  = Fulfilled (JsString "Unknown error", JsNull).
Proof.
  apply (AsyncMaybe_transform_raises raising (zod userSchema) _
           (JsObject [("name", JsString "Alice"); ("age", JsNumber 30);
                      ("email", JsString "alice@example.com")])
           (JsString "boom")); reflexivity.
Defined.

(** C6: in [Maybe] a transform that raises on the validated data is not
    caught: the call of the validator raises the same exception and returns
    no pair. *)
Theorem Maybe_transform_raises fn schema data validated exn :
  safeParse schema data = Normal (SafeParseSuccess validated) ->
  fn validated = Throw exn ->
  Maybe fn schema data = Throw exn /\
  forall pair, Maybe fn schema data <> Normal pair.
Proof.
  intros Hparse Hfn.
  rewrite (Maybe_on_success _ _ _ _ Hparse), Hfn. simpl.
  split; [reflexivity | discriminate].
Qed.

Lemma Maybe_transform_raises_witness :
  Maybe raising (zod ZodBoolean) (JsBool true) = Throw (JsString "boom") /\
  forall pair, Maybe raising (zod ZodBoolean) (JsBool true) <> Normal pair.
Proof.
  apply (Maybe_transform_raises raising (zod ZodBoolean) (JsBool true)
           (JsBool true) (JsString "boom")); reflexivity.
Defined.

(** C7: when the schema rejects the input, the error slot of [Maybe] is a
    text that [JSON.parse] decodes to an array with one entry per issue of
    the failure outcome, and the value slot is [null]; for the schemas of
    the engine model the number of entries is the number of rules the input
    breaks; for [userSchema] and [{name: 'A', age: -5, email: 'invalid'}]
    there are three entries. *)
Theorem Maybe_error_entries fn schema data error model input :
  safeParse schema data = Normal (SafeParseError (Some error)) ->
  (2 <= rule_violations model input)%nat ->
  (exists text,
      Maybe fn schema data = Normal (JsString text, JsNull) /\
      JSON_parse text = Normal (JsArray (map issue_json (issues error)))) /\
  (exists text entries,
      Maybe fn (zod model) input = Normal (JsString text, JsNull) /\
      JSON_parse text = Normal (JsArray entries) /\
      List.length entries = rule_violations model input) /\
  (exists text entries,
      Maybe fn (zod userSchema) invalidUser = Normal (JsString text, JsNull) /\
      JSON_parse text = Normal (JsArray entries) /\
      List.length entries = 3%nat).
Proof.
  assert (decoded : forall s d e,
             safeParse s d = Normal (SafeParseError (Some e)) ->
             exists text,
               Maybe fn s d = Normal (JsString text, JsNull) /\
               JSON_parse text = Normal (JsArray (map issue_json (issues e)))).
  { intros s d e H. exists (ZodError_message e). split.
    - now rewrite (Maybe_on_failure _ _ _ _ H).
    - apply JSON_parse_message. }
  assert (counted : forall m i,
             (1 <= rule_violations m i)%nat ->
             exists text entries,
               Maybe fn (zod m) i = Normal (JsString text, JsNull) /\
               JSON_parse text = Normal (JsArray entries) /\
               List.length entries = rule_violations m i).
  { intros m i H.
    destruct (decoded _ _ _ (zod_failure m i H)) as (text & Hpair & Hparse).
    exists text, (map issue_json (fst (_parse m [] i))).
    repeat split; auto.
    rewrite List.length_map. apply parse_issues. }
  intros Hfail Hmany. split; [| split].
  - now apply decoded.
  - apply counted. lia.
  - apply (counted userSchema invalidUser). simpl. lia.
Qed.

Lemma Maybe_error_entries_witness :
  (exists text,
      Maybe noop (zod userSchema) invalidUser = Normal (JsString text, JsNull) /\
      JSON_parse text
      = Normal (JsArray (map issue_json (fst (_parse userSchema [] invalidUser))))) /\
  (exists text entries,
      Maybe noop (zod userSchema) invalidUser = Normal (JsString text, JsNull) /\
      JSON_parse text = Normal (JsArray entries) /\
      List.length entries = rule_violations userSchema invalidUser) /\
  (exists text entries,
      Maybe noop (zod userSchema) invalidUser = Normal (JsString text, JsNull) /\
      JSON_parse text = Normal (JsArray entries) /\
      List.length entries = 3%nat).
Proof.
  apply (Maybe_error_entries noop (zod userSchema) invalidUser
           (mkZodError (fst (_parse userSchema [] invalidUser)))
           userSchema invalidUser).
  - reflexivity.
  - vm_compute. lia.
Defined.

(** C8: when the failure outcome carries no error object, [Maybe] returns
    [undefined] in the error slot and [null] in the value slot: both are
    absent and no message string is made up. *)
Theorem Maybe_failure_without_error fn schema data :
  safeParse schema data = Normal (SafeParseError None) ->
  Maybe fn schema data = Normal (JsUndefined, JsNull) /\
  absent JsUndefined = true /\ absent JsNull = true /\
  forall text pair, Maybe fn schema data = Normal pair -> fst pair <> JsString text.
Proof.
  intros Hparse. rewrite (Maybe_on_failure _ _ _ _ Hparse). simpl.
  repeat split. intros text pair [= <-]. discriminate.
Qed.

Lemma Maybe_failure_without_error_witness :
  Maybe noop bareFailure JsNull = Normal (JsUndefined, JsNull) /\
  absent JsUndefined = true /\ absent JsNull = true /\
  forall text pair, Maybe noop bareFailure JsNull = Normal pair -> fst pair <> JsString text.
Proof.
  apply (Maybe_failure_without_error noop bareFailure JsNull). reflexivity.
Defined.

(** C9: the promise returned by [AsyncMaybe] always fulfils with a pair and
    never rejects, whatever the schema, the transform and the pending input
    do; unless every step completed normally, it is the pair of
    ['Unknown error'] and [null]. *)
Theorem AsyncMaybe_never_rejects fn schema pending :
  (exists pair, AsyncMaybe fn schema pending = Fulfilled pair) /\
  (forall reason, AsyncMaybe fn schema pending <> Rejected reason) /\
  (forall pair, AsyncMaybe fn schema pending = Fulfilled pair ->
     pair = (JsString "Unknown error", JsNull) \/
     exists input result,
       pending = Fulfilled input /\
       safeParseAsync schema input = Normal (Fulfilled result) /\
       match result with
       | SafeParseSuccess validated =>
           exists value, fn validated = Normal value /\ pair = (JsNull, value)
       | SafeParseError error => pair = (optional_message error, JsNull)
       end).
Proof.
  destruct (AsyncMaybe_fulfills fn schema pending) as [pair H].
  split; [eauto |]. split.
  - intros reason. rewrite H. discriminate.
  - intros pair'. apply AsyncMaybe_inversion.
Qed.

(** C10: when the schema rejects the input, the result of [Maybe] is the
    same for any two transforms: the transform is not called. *)
Theorem Maybe_failure_ignores_transform f g schema data error :
  safeParse schema data = Normal (SafeParseError error) ->
  Maybe f schema data = Maybe g schema data.
Proof.
  intros Hparse. now rewrite !(Maybe_on_failure _ _ _ _ Hparse).
Qed.

Lemma Maybe_failure_ignores_transform_witness :
  Maybe raising (zod userSchema) invalidUser = Maybe noop (zod userSchema) invalidUser.
Proof.
  apply (Maybe_failure_ignores_transform raising noop (zod userSchema) invalidUser
           (Some (mkZodError (fst (_parse userSchema [] invalidUser))))).
  reflexivity.
Defined.

(** * Further properties *)

(** ** What the error slot tells the caller *)

Lemma ZodError_message_head error :
  exists t, ZodError_message error = String "[" t.
Proof.
  unfold ZodError_message. rewrite serialize_array. unfold container_text.
  destruct (map _ (map issue_json (issues error))); eexists; reflexivity.
Qed.

Lemma optional_message_not_null error : optional_message error <> JsNull.
Proof. destruct error; discriminate. Qed.

Lemma optional_message_truthy error :
  ToBoolean (optional_message error) = true <-> exists e, error = Some e.
Proof.
  destruct error as [e |]; simpl.
  - destruct (ZodError_message_head e) as [t ->]. split; eauto.
  - split; [discriminate | intros [e H]; discriminate].
Qed.

(** X1: in a pair returned by [Maybe] the error slot is [null] exactly when
    the schema accepted the input, and then the value slot is what the
    transform returned on the validated data; when the error slot is not
    [null], the value slot is [null]. *)
Theorem Maybe_null_error_iff_success fn schema data pair :
  Maybe fn schema data = Normal pair ->
  (fst pair = JsNull <->
   exists validated,
     safeParse schema data = Normal (SafeParseSuccess validated) /\
     fn validated = Normal (snd pair)) /\
  (fst pair <> JsNull -> snd pair = JsNull).
Proof.
  intros H. apply Maybe_inversion in H.
  destruct H as [(validated & value & Hparse & Hfn & ->)
                | (error & Hparse & ->)]; simpl.
  - split; [| congruence]. split; eauto.
  - split; [| reflexivity]. split.
    + intros H. now apply optional_message_not_null in H.
    + intros (validated & H & _). congruence.
Qed.

Lemma Maybe_null_error_iff_success_witness :
  (fst (JsNull, JsNumber 15) = JsNull <->
   exists validated,
     safeParse (zod (ZodArray (ZodNumber [])))
       (JsArray [JsNumber 7; JsNumber 8])
     = Normal (SafeParseSuccess validated) /\
     on_numbers sum validated = Normal (snd (JsNull, JsNumber 15))) /\
  (fst (JsNull, JsNumber 15) <> JsNull -> snd (JsNull, JsNumber 15) = JsNull).
Proof.
  apply (Maybe_null_error_iff_success (on_numbers sum)
           (zod (ZodArray (ZodNumber []))) (JsArray [JsNumber 7; JsNumber 8])).
  reflexivity.
Defined.

(** X2: in a pair returned by [Maybe] the error slot passes the test
    [if (error)] exactly when the schema rejected the input with an error
    object: the message is never the empty string. *)
Theorem Maybe_error_truthy_iff_failure fn schema data pair :
  Maybe fn schema data = Normal pair ->
  (ToBoolean (fst pair) = true <->
   exists error, safeParse schema data = Normal (SafeParseError (Some error))).
Proof.
  intros H. apply Maybe_inversion in H.
  destruct H as [(validated & value & Hparse & Hfn & ->)
                | (error & Hparse & ->)]; simpl.
  - split; [discriminate | intros [e H]; congruence].
  - rewrite optional_message_truthy. split.
    + intros [e ->]. eauto.
    + intros [e H]. rewrite Hparse in H. injection H as ->. eauto.
Qed.

Lemma Maybe_error_truthy_iff_failure_witness :
  ToBoolean (fst (JsUndefined, JsNull)) = true <->
  exists error, safeParse bareFailure JsNull = Normal (SafeParseError (Some error)).
Proof.
  apply (Maybe_error_truthy_iff_failure noop bareFailure JsNull). reflexivity.
Defined.

(** X3: the call of the validator built by [Maybe] raises exactly when
    [safeParse] raises or the transform raises on the validated data, with
    that exception; a rejected input never makes it raise. *)
Theorem Maybe_throws_iff fn schema data exn :
  Maybe fn schema data = Throw exn <->
  safeParse schema data = Throw exn \/
  exists validated,
    safeParse schema data = Normal (SafeParseSuccess validated) /\
    fn validated = Throw exn.
Proof.
  unfold Maybe, bind.
  destruct (safeParse schema data) as [[validated | error] | exn'] eqn:Hparse.
  - destruct (fn validated) as [value | exn'] eqn:Hfn; split.
    + discriminate.
    + intros [H | (v & [= <-] & H)]; [discriminate | congruence].
    + intros [= ->]. right. eauto.
    + intros [H | (v & [= <-] & H)]; [discriminate |].
      rewrite Hfn in H. now injection H as ->.
  - split; [discriminate |].
    intros [H | (v & H & _)]; discriminate.
  - split.
    + intros [= ->]. now left.
    + intros [[= ->] | (v & H & _)]; [reflexivity | discriminate].
Qed.

(** ** The asynchronous wrapper: failure, exceptions, and the synchronous one *)

(** X4: when the awaited validation fails, [AsyncMaybe] fulfils with the
    message of the error and [null], whatever the transform is. *)
Theorem AsyncMaybe_failure f g schema input error :
  safeParseAsync schema input = Normal (Fulfilled (SafeParseError error)) ->
  AsyncMaybe f schema (Fulfilled input)
  = Fulfilled (optional_message error, JsNull) /\
  AsyncMaybe f schema (Fulfilled input) = AsyncMaybe g schema (Fulfilled input).
Proof.
  intros H. unfold AsyncMaybe. simpl. rewrite H. simpl. split; reflexivity.
Qed.

Lemma AsyncMaybe_failure_witness :
  AsyncMaybe raising (zod userSchema) (Fulfilled invalidUser)
  = Fulfilled (optional_message
                 (Some (mkZodError (fst (_parse userSchema [] invalidUser)))),
               JsNull) /\
  AsyncMaybe raising (zod userSchema) (Fulfilled invalidUser)
  = AsyncMaybe noop (zod userSchema) (Fulfilled invalidUser).
Proof.
  apply (AsyncMaybe_failure raising noop (zod userSchema) invalidUser).
  reflexivity.
Defined.

(** X5: [AsyncMaybe] fulfils with the pair of ['Unknown error'] and [null] exactly when
    something raised: the pending input rejected, [safeParseAsync] raised or
    its promise rejected, or the transform raised.  A validation failure
    never gives that pair. *)
Theorem AsyncMaybe_unknown_error_iff fn schema pending :
  AsyncMaybe fn schema pending = Fulfilled (JsString "Unknown error", JsNull) <->
  (exists reason, pending = Rejected reason) \/
  (exists input,
      pending = Fulfilled input /\
      ((exists exn, safeParseAsync schema input = Throw exn) \/
       (exists reason, safeParseAsync schema input = Normal (Rejected reason)) \/
       (exists validated exn,
           safeParseAsync schema input
           = Normal (Fulfilled (SafeParseSuccess validated)) /\
           fn validated = Throw exn))).
Proof.
  unfold AsyncMaybe. destruct pending as [input | reason]; simpl.
  2:{ split; [intros _; left; eauto | reflexivity]. }
  destruct (safeParseAsync schema input) as [[[validated | error] | reason] | exn]
    eqn:Hparse; simpl.
  - destruct (fn validated) as [value | exn] eqn:Hfn; simpl; split.
    + discriminate.
    + intros [[reason H] | (i & [= <-] & [[exn H] | [[reason H] | (v & exn & H & Hv)]])];
        congruence.
    + intros _. right. exists input. split; [reflexivity |].
      right; right. eauto.
    + reflexivity.
  - split.
    + intros [= H]. destruct error as [e |]; [| discriminate].
      simpl in H. destruct (ZodError_message_head e) as [t Ht].
      rewrite Ht in H. discriminate.
    + intros [[reason H] | (i & [= <-] & [[exn H] | [[reason H] | (v & exn & H & _)]])];
        congruence.
  - split; [| reflexivity]. intros _. right. exists input. eauto.
  - split; [| reflexivity]. intros _. right. exists input. eauto.
Qed.

Lemma AsyncMaybe_after_Maybe fn schema input :
  safeParseAsync schema input = Normal (async (safeParse schema input)) ->
  AsyncMaybe fn schema (Fulfilled input) =
    match Maybe fn schema input with
    | Normal returned => Fulfilled returned
    | Throw _ => Fulfilled (JsString "Unknown error", JsNull)
    end.
Proof.
  intros H. unfold AsyncMaybe, Maybe. simpl. rewrite H.
  destruct (safeParse schema input) as [[validated | error] | exn]; simpl;
    try reflexivity.
  destruct (fn validated); reflexivity.
Qed.

(** X6: for a schema whose [safeParseAsync] is its [safeParse] made
    asynchronous, as the engine's is, [AsyncMaybe] on an input that fulfils
    gives the pair [Maybe] returns on the fulfilled value, and the pair of
    ['Unknown error'] and [null] where [Maybe] raises. *)
Theorem AsyncMaybe_agrees_with_Maybe fn schema input :
  safeParseAsync schema input = Normal (async (safeParse schema input)) ->
  AsyncMaybe fn schema (Fulfilled input) =
    match Maybe fn schema input with
    | Normal returned => Fulfilled returned
    | Throw _ => Fulfilled (JsString "Unknown error", JsNull)
    end.
Proof. exact (AsyncMaybe_after_Maybe fn schema input). Qed.

Lemma AsyncMaybe_agrees_with_Maybe_witness :
  AsyncMaybe processUser (zod userSchema) (Fulfilled invalidUser) =
    match Maybe processUser (zod userSchema) invalidUser with
    | Normal returned => Fulfilled returned
    | Throw _ => Fulfilled (JsString "Unknown error", JsNull)
    end.
Proof.
  apply (AsyncMaybe_agrees_with_Maybe processUser (zod userSchema) invalidUser).
  reflexivity.
Defined.

(** ** The engine model never raises *)






(** ** The asynchronous wrapper on the engine model *)

Lemma Maybe_zod_failure fn schema data :
  (1 <= rule_violations schema data)%nat ->
  exists text entries,
    Maybe fn (zod schema) data = Normal (JsString text, JsNull) /\
    JSON_parse text = Normal (JsArray entries) /\
    List.length entries = rule_violations schema data.
Proof.
  intros H.
  exists (ZodError_message (mkZodError (fst (_parse schema [] data)))),
    (map issue_json (fst (_parse schema [] data))).
  split; [| split].
  - now rewrite (Maybe_on_failure _ _ _ _ (zod_failure schema data H)).
  - apply JSON_parse_message.
  - rewrite List.length_map. apply parse_issues.
Qed.

(** X8: when the input breaks a rule of a schema of the engine model,
    [AsyncMaybe] fulfils with the same pair as [Maybe] returns: an error
    text that [JSON.parse] decodes to one entry per broken rule, and
    [null]. *)
Theorem AsyncMaybe_error_entries fn schema input :
  (1 <= rule_violations schema input)%nat ->
  exists text entries,
    AsyncMaybe fn (zod schema) (Fulfilled input) = Fulfilled (JsString text, JsNull) /\
    Maybe fn (zod schema) input = Normal (JsString text, JsNull) /\
    JSON_parse text = Normal (JsArray entries) /\
    List.length entries = rule_violations schema input.
Proof.
  intros H.
  destruct (Maybe_zod_failure fn schema input H) as (text & entries & Hm & Hp & Hl).
  exists text, entries. repeat split; auto.
  rewrite AsyncMaybe_after_Maybe by reflexivity. now rewrite Hm.
Qed.

Lemma AsyncMaybe_error_entries_witness :
  exists text entries,
    AsyncMaybe processUser (zod userSchema)
      (Fulfilled (JsObject [("name", JsString "B"); ("age", JsNumber 0);
                            ("email", JsString "invalid")]))
    = Fulfilled (JsString text, JsNull) /\
    Maybe processUser (zod userSchema)
      (JsObject [("name", JsString "B"); ("age", JsNumber 0);
                 ("email", JsString "invalid")])
    = Normal (JsString text, JsNull) /\
    JSON_parse text = Normal (JsArray entries) /\
    List.length entries
    = rule_violations userSchema
        (JsObject [("name", JsString "B"); ("age", JsNumber 0);
                   ("email", JsString "invalid")]).
Proof.
  apply (AsyncMaybe_error_entries processUser userSchema).
  vm_compute. lia.
Defined.

(** ** The demo of [src/index.ts] *)



Lemma length_over n limit :
  (Z.of_nat (String.length n) >? Z.of_nat limit) = false <->
  (String.length n <= limit)%nat.
Proof. rewrite Z.gtb_ltb, Z.ltb_ge. lia. Qed.

Lemma profile_parse fields :
  _parse profileValidator [] (JsObject fields) =
    let name := get_property "name" fields in
    let email := get_property "email" fields in
    let name_result := _parse (ZodString [StringMax 10]) [PathKey "name"] name in
    let email_result := _parse (ZodString [StringEmail]) [PathKey "email"] email in
    ((fst name_result ++ fst email_result)%list,
     match snd name_result, snd email_result with
     | Some n, Some e => Some (JsObject [("name", n); ("email", e)])
     | _, _ => None
     end).
Proof.
  simpl. rewrite List.app_nil_r.
  destruct (get_property "name" fields), (get_property "email" fields);
    reflexivity.
Qed.

(** X9: [safeFunction] of the demo accepts an object exactly when its
    [name] is a string of at most 10 characters and its [email] is a string
    the engine's email pattern matches; the value is then that name. *)
Theorem safeFunction_accepts_iff fields value :
  safeFunction (JsObject fields) = Normal (JsNull, value) <->
  exists n e,
    value = JsString n /\
    get_property "name" fields = JsString n /\
    (String.length n <= 10)%nat /\
    get_property "email" fields = JsString e /\
    emailRegex_test e = true.
Proof.
  unfold safeFunction, MaybeFunction, zod, bind. cbn [safeParse].
  rewrite profile_parse. cbv zeta.
  destruct (get_property "name" fields) as [| | | | n | | |] eqn:Hname;
    try (split; [discriminate | intros (n' & e' & _ & H & _); discriminate]).
  destruct (get_property "email" fields) as [| | | | e | | |] eqn:Hemail;
    try (cbn -[Z.gtb Z.of_nat ZodError_message];
         destruct (Z.of_nat (String.length n) >? 10);
         cbn -[ZodError_message];
         (split; [discriminate
                 | intros (n' & e' & _ & _ & _ & H & _); discriminate])).
  cbn -[Z.gtb Z.of_nat ZodError_message emailRegex_test].
  pose proof (length_over n 10) as Hlen. change (Z.of_nat 10) with 10 in Hlen.
  destruct (Z.of_nat (String.length n) >? 10) eqn:Hover;
    destruct (emailRegex_test e) eqn:Hmatch;
    cbn -[ZodError_message];
    try (split;
         [discriminate
         | intros (n' & e' & _ & [= <-] & Hn & [= <-] & He);
           first [apply Hlen in Hn; discriminate | congruence]]).
  split.
  - intros [= <-]. exists n, e. repeat split; auto. now apply Hlen.
  - intros (n' & e' & -> & [= <-] & _). reflexivity.
Qed.




(** ** The transforms of the test suite *)




Lemma parse_items_accepted parse path items :
  (forall path item, In item items -> parse path item = ([], Some item)) ->
  forall index, parse_items parse path index items = ([], Some items).
Proof.
  induction items as [| item items IH]; intros H index; simpl; [reflexivity |].
  rewrite (H _ item) by now left.
  rewrite IH by (intros; apply H; now right). reflexivity.
Qed.

(** X13: for every array of strings, the empty one included,
    [Maybe((arr) => arr.length, z.array(z.string()))] returns [null] and
    the number of elements. *)
Theorem array_length_of_strings strings :
  Maybe array_length (zod (ZodArray (ZodString []))) (JsArray (map JsString strings))
  = Normal (JsNull, JsNumber (Z.of_nat (List.length strings))).
Proof.
  unfold Maybe, zod, bind. cbn [safeParse _parse].
  rewrite parse_items_accepted.
  - simpl. now rewrite List.length_map.
  - intros path item Hin. apply in_map_iff in Hin as (s & <- & _). reflexivity.
Qed.








(** X17: when the [name] of the object has more than 10 characters and its
    [email] matches, [safeFunction] returns an error text that decodes to
    the single entry of the broken rule, with the message the demo prints,
    and [null]; properties the schema does not name play no part. *)
Theorem safeFunction_name_too_long fields n e :
  get_property "name" fields = JsString n ->
  (10 < String.length n)%nat ->
  get_property "email" fields = JsString e ->
  emailRegex_test e = true ->
  exists text,
    safeFunction (JsObject fields) = Normal (JsString text, JsNull) /\
    JSON_parse text
    = Normal (JsArray
                [issue_json
                   (too_big 10 "string" true false
                      "String must contain at most 10 character(s)"
                      [PathKey "name"])]).
Proof.
  intros Hname Hlen Hemail Hmatch.
  unfold safeFunction, MaybeFunction, zod, bind. cbn [safeParse].
  rewrite profile_parse, Hname, Hemail. cbv zeta.
  cbn -[Z.gtb Z.of_nat ZodError_message emailRegex_test JSON_parse].
  rewrite Hmatch.
  assert ((Z.of_nat (String.length n) >? 10) = true) as ->
    by (rewrite Z.gtb_ltb; apply Z.ltb_lt; lia).
  cbn -[ZodError_message JSON_parse].
  eexists. split; [reflexivity |]. apply JSON_parse_message.
Qed.

Lemma safeFunction_name_too_long_witness :
  exists text,
    safeFunction demo_data = Normal (JsString text, JsNull) /\
    JSON_parse text
    = Normal (JsArray
                [issue_json
                   (too_big 10 "string" true false
                      "String must contain at most 10 character(s)"
                      [PathKey "name"])]).
Proof.
  apply (safeFunction_name_too_long
           [("name", JsString "John Doe 0000 0000 000");
            ("email", JsString "john.doe@example.com");
            ("below", JsNumber 100)]
           "John Doe 0000 0000 000" "john.doe@example.com");
    try reflexivity. simpl. lia.
Defined.
